(** * Random systems of nonlinear ODE right-hand sides: [datagen.Equations]

    A shallow embedding of the class [Equations] of [src/datagen.py]: its
    constructor ([__init__], the random generator of the equation
    structure and of the symbolic strings), [__getitem__] and [__call__]
    (the evaluator handed to an ODE solver).

    The three things the class borrows from its environment are taken as
    interfaces:
    - [jax.random] ([key], [split], [randint]) is the class [JaxRandom];
    - the iteration order of a Python [set] of integers is [PySet];
    - the numbers the nonlinearities work on are the class [Numeric].
    What the proofs need of them is stated in the classes [JaxRandomLaws],
    [PySetLaws] and [NumericLaws], and concrete instances are given in
    the module [Toy]. *)

From Stdlib Require Import String Ascii DecimalString.
From Stdlib Require Import List ZArith Lia Bool.
Import ListNotations.

Local Open Scope string_scope.
Local Open Scope list_scope.
Local Open Scope Z_scope.

Set Implicit Arguments.

(** ** Exceptions and results *)

(** The exceptions a run of the class can end with.  [LibraryError] is
    what numpy and jax raise for a negative dimension, [TypeError] what
    iterating over a float raises, [ConfigurationError] is the exception the specification names for a
    rejected configuration, and [Raised msg] is the exception a nonlinearity
    raises on its own (a domain error of [log], say). *)
Inductive exn : Type :=
| IndexError
| LibraryError
| TypeError
| ConfigurationError
| Raised (msg : string).

Inductive result (A : Type) : Type :=
| Ok (a : A)
| Raise (e : exn).

Arguments Ok {A} a.
Arguments Raise {A} e.

Definition is_ok {A} (r : result A) : bool :=
  match r with Ok _ => true | Raise _ => false end.

(** ** Python lists, ranges, slices and formatting *)

(** [l[i]] on a Python list: indices [-len .. len-1] are accepted, the
    negative ones counting from the end; anything else is an
    [IndexError]. *)
Definition py_index (len : nat) (i : Z) : result nat :=
  let n := Z.of_nat len in
  if (0 <=? i) && (i <? n) then Ok (Z.to_nat i)
  else if (- n <=? i) && (i <? 0) then Ok (Z.to_nat (i + n))
  else Raise IndexError.

Definition py_getitem {A} (l : list A) (i : Z) : result A :=
  match py_index (length l) i with
  | Ok p => match nth_error l p with
            | Some a => Ok a
            | None => Raise IndexError
            end
  | Raise e => Raise e
  end.

Fixpoint replace_nth {A} (l : list A) (p : nat) (a : A) : list A :=
  match l, p with
  | [], _ => []
  | _ :: l', O => a :: l'
  | x :: l', S p' => x :: replace_nth l' p' a
  end.

(** [l[i] = a] *)
Definition py_setitem {A} (l : list A) (i : Z) (a : A) : result (list A) :=
  match py_index (length l) i with
  | Ok p => Ok (replace_nth l p a)
  | Raise e => Raise e
  end.

(** [range(n)]: empty for [n <= 0]. *)
Definition py_range (n : Z) : list nat := seq 0 (Z.to_nat n).

(** [enumerate(l)] *)
Definition enumerate {A} (l : list A) : list (nat * A) :=
  combine (seq 0 (length l)) l.

(** [s[:-3]] *)
Definition drop_last3 (s : string) : string :=
  substring 0 (String.length s - 3)%nat s.

(** [str(z)] for a Python int. *)
Definition str_of_Z (z : Z) : string := NilZero.string_of_int (Z.to_int z).

(** ** The environment: jax.random, set iteration, numbers *)

(** [random.key(seed)], [random.split(key)] (the pair it is unpacked
    to) and [random.randint(key, shape=(n,), minval, maxval)] as the list
    of its [n] entries. *)
Class JaxRandom : Type := {
  Key : Type;
  random_key : Z -> Key;
  random_split : Key -> Key * Key;
  random_randint : Key -> nat -> Z -> Z -> list Z
}.

(** [randint] returns an array of the shape asked for, with entries in
    [minval, maxval) when that range is not empty. *)
Class JaxRandomLaws (J : JaxRandom) : Prop := {
  randint_length : forall k n lo hi,
    length (random_randint k n lo hi) = n;
  randint_range : forall k n lo hi,
    lo < hi -> Forall (fun z => lo <= z < hi) (random_randint k n lo hi)
}.

(** [list(set(l))]: the elements of [l] without repetition, in the order
    the hash table of the set gives them. *)
Class PySet : Type := {
  list_set : list Z -> list Z
}.

Class PySetLaws (P : PySet) : Prop := {
  list_set_NoDup : forall l, NoDup (list_set l);
  list_set_In : forall l z, In z (list_set l) <-> In z l
}.

(** The numbers of the state vector: the values of the literals [0] and
    [1], [+] and [*]. *)
Class Numeric : Type := {
  num : Type;
  num0 : num;
  num1 : num;
  num_add : num -> num -> num;
  num_mul : num -> num -> num
}.

(** [0 + x] is [x] and [1 * x] is [x]: so it is for Python's integers,
    for the reals, and for floating-point numbers compared with [==]
    (not-a-number apart). *)
Class NumericLaws (N : Numeric) : Prop := {
  num_add_0_l : forall x, num_add num0 x = x;
  num_mul_1_l : forall x, num_mul num1 x = x
}.

(** ** The data model *)

Section Datagen.

Context {J : JaxRandom} {P : PySet} {N : Numeric}.

(** A nonlinearity is a Python callable on numbers: it returns a number
    or raises an exception of its own. *)
Inductive outcome : Type :=
| Returns (v : num)
| Raises (msg : string).

Definition nonlin : Type := num -> outcome.

(** [func(x)]: the exception of the nonlinearity is not caught. *)
Definition call_nonlin (func : nonlin) (x : num) : result num :=
  match func x with
  | Returns v => Ok v
  | Raises msg => Raise (Raised msg)
  end.

Definition returns (o : outcome) : bool :=
  match o with Returns _ => true | Raises _ => false end.

(** A slot of an addend: the [1.0] that [np.ones] put there, or the list
    of nonlinearities assigned to it ([addend[j] = temp]). *)
Inductive slot : Type :=
| One
| Funcs (fs : list nonlin).

Definition term : Type := list slot.
Definition equation : Type := list term.

(** [element != 1.0]: a list is never equal to a float. *)
Definition not_one (s : slot) : bool :=
  match s with One => false | Funcs _ => true end.

(** The attributes of an [Equations] object. *)
Record Equations : Type := mkEquations {
  n_vars : Z;
  n_eqs : Z;
  max_sum_terms : Z;
  max_mult_terms : Z;
  non_lins : list nonlin;
  sym_non_lins : list string;
  equations : list equation;
  sym_expr : list string;
  key : Key
}.

Definition set_key (k : Key) (self : Equations) : Equations :=
  mkEquations (n_vars self) (n_eqs self) (max_sum_terms self)
    (max_mult_terms self) (non_lins self) (sym_non_lins self)
    (equations self) (sym_expr self) k.

(** [self.equations.append(equation)] *)
Definition append_equation (e : equation) (self : Equations) : Equations :=
  mkEquations (n_vars self) (n_eqs self) (max_sum_terms self)
    (max_mult_terms self) (non_lins self) (sym_non_lins self)
    (equations self ++ [e]) (sym_expr self) (key self).

(** [self.sym_expr.append(sym_eq)] *)
Definition append_sym_expr (s : string) (self : Equations) : Equations :=
  mkEquations (n_vars self) (n_eqs self) (max_sum_terms self)
    (max_mult_terms self) (non_lins self) (sym_non_lins self)
    (equations self) (sym_expr self ++ [s]) (key self).

(** ** Methods as computations on [self]

    A method body reads and writes the attributes of [self] and may
    raise: [M A] is a state and exception monad over the object.  Code
    that touches no attribute lives in [result]. *)

Definition M (A : Type) : Type := Equations -> result A * Equations.

Definition ret {A} (a : A) : M A := fun self => (Ok a, self).

Definition bind {A B} (c : M A) (k : A -> M B) : M B :=
  fun self =>
    match c self with
    | (Ok a, self') => k a self'
    | (Raise e, self') => (Raise e, self')
    end.

Definition get : M Equations := fun self => (Ok self, self).

Definition modify (f : Equations -> Equations) : M unit :=
  fun self => (Ok tt, f self).

Definition lift {A} (r : result A) : M A := fun self => (r, self).

Definition rbind {A B} (r : result A) (k : A -> result B) : result B :=
  match r with
  | Ok a => k a
  | Raise e => Raise e
  end.

End Datagen.

Notation "x <- c ;; k" := (bind c (fun x => k))
  (at level 61, c at next level, right associativity).
Notation "' pat <- c ;; k" := (bind c (fun x => match x with pat => k end))
  (at level 61, pat pattern, c at next level, right associativity).
Notation "c ;;; k" := (bind c (fun _ => k))
  (at level 61, right associativity).
Notation "x <-? r ;; k" := (rbind r (fun x => k))
  (at level 61, r at next level, right associativity).
Notation "' pat <-? r ;; k" := (rbind r (fun x => match x with pat => k end))
  (at level 61, pat pattern, r at next level, right associativity).

Section Methods.

Context {J : JaxRandom} {P : PySet} {N : Numeric}.

(** A [for] loop whose body updates the local variables [s] and may
    touch [self]. *)
Fixpoint for_each {A S} (l : list A) (body : A -> S -> M S) (s : S) : M S :=
  match l with
  | [] => ret s
  | a :: l' => s' <- body a s ;; for_each l' body s'
  end.

(** The same for a body that touches no attribute. *)
Fixpoint for_each_r {A S} (l : list A) (body : A -> S -> result S) (s : S)
  : result S :=
  match l with
  | [] => Ok s
  | a :: l' => s' <-? body a s ;; for_each_r l' body s'
  end.

(** A dimension handed to numpy or jax: negative ones are refused. *)
Definition as_shape (n : Z) : result nat :=
  if n <? 0 then Raise LibraryError else Ok (Z.to_nat n).

(** [np.ones(n).tolist()] *)
Definition np_ones (n : Z) : result term :=
  d <-? as_shape n ;; Ok (repeat One d).

(** *** [__init__] *)

(** Lines 32-35: the generic names [\text{nl}_1], [\text{nl}_2], ... *)
Definition default_names (nl : list nonlin) : list string :=
  map (fun i => ("\text{nl}_" ++ str_of_Z (Z.of_nat i + 1))%string)
      (py_range (Z.of_nat (length nl))).

(** Line 68, [non_lins_idxs[np.where(var_to_be_applied_idxs == j)]]: the
    entries of [non_lins_idxs] at the positions where
    [var_to_be_applied_idxs] is [j].  Both arrays have the shape
    [(n_mult_terms[0],)]. *)
Definition where_eq (non_lins_idxs var_idxs : list Z) (j : Z) : list Z :=
  map fst (filter (fun kv => snd kv =? j) (combine non_lins_idxs var_idxs)).

(** Lines 71-73, one round of [for k in idxs]. *)
Definition add_nonlin (nl : list nonlin) (names : list string) (j k : Z)
    (st : list nonlin * string) : result (list nonlin * string) :=
  let '(temp, sym_addend) := st in
  f <-? py_getitem nl k ;;
  name <-? py_getitem names k ;;
  Ok (temp ++ [f],
      (sym_addend ++ (name ++ ("(y_{" ++ str_of_Z (j + 1) ++ "})")))%string).

(** Lines 67-75, one round of [for j in list(set(...))]. *)
Definition fill_slot (nl : list nonlin) (names : list string)
    (non_lins_idxs var_idxs : list Z) (j : Z) (st : term * string)
  : result (term * string) :=
  let '(addend, sym_addend) := st in
  let idxs := where_eq non_lins_idxs var_idxs j in
  '(temp, sym_addend') <-?
     for_each_r idxs (add_nonlin nl names j) ([], sym_addend) ;;
  addend' <-? py_setitem addend j (Funcs temp) ;;
  Ok (addend', sym_addend').

(** Lines 57-75: the three draws of an addend, all from the same
    subkey, and the addend and its symbolic expression built from them. *)
Definition draw_addend (self : Equations) (subkey : Key)
  : result (term * string) :=
  let n_mult_terms :=
    random_randint subkey 1 1 (max_mult_terms self + 1) in
  m0 <-? py_getitem n_mult_terms 0 ;;
  m <-? as_shape m0 ;;
  let non_lins_idxs :=
    random_randint subkey m 0 (Z.of_nat (length (non_lins self))) in
  let var_to_be_applied_idxs := random_randint subkey m 0 (n_vars self) in
  addend <-? np_ones (n_vars self) ;;
  for_each_r (list_set var_to_be_applied_idxs)
    (fill_slot (non_lins self) (sym_non_lins self)
       non_lins_idxs var_to_be_applied_idxs)
    (addend, "").

(** Lines 56-75: the key of the object is split once per addend. *)
Definition gen_addend : M (term * string) :=
  self <- get ;;
  let '(key', subkey) := random_split (key self) in
  modify (set_key key') ;;;
  lift (draw_addend self subkey).

(** Lines 54-79, one round of [for _ in range(n_sum_terms[i])]. *)
Definition add_addend (_ : nat) (st : equation * string)
  : M (equation * string) :=
  let '(equation, sym_eq) := st in
  '(addend, sym_addend) <- gen_addend ;;
  ret (equation ++ [addend], (sym_eq ++ (sym_addend ++ " + "))%string).

(** Lines 48-84, one round of [for i in range(self.n_eqs)]. *)
Definition gen_equation (n_sum_terms : list Z) (i : nat) (_ : unit)
  : M unit :=
  let sym_eq := ("f_{" ++ str_of_Z (Z.of_nat i + 1) ++ "} = ")%string in
  cnt <- lift (py_getitem n_sum_terms (Z.of_nat i)) ;;
  '(equation, sym_eq') <- for_each (py_range cnt) add_addend ([], sym_eq) ;;
  modify (append_equation equation) ;;;
  modify (append_sym_expr (drop_last3 sym_eq')).

(** Lines 45-84. *)
Definition init_body : M unit :=
  self <- get ;;
  d <- lift (as_shape (n_eqs self)) ;;
  let n_sum_terms :=
    random_randint (key self) d 1 (max_sum_terms self + 1) in
  for_each (py_range (n_eqs self)) (gen_equation n_sum_terms) tt.

(** The object as lines 24-42 leave it. *)
Definition init_state (nv ne mst mmt : Z) (nl : list nonlin)
    (snl : option (list string)) (seed : Z) : Equations :=
  mkEquations nv ne mst mmt nl
    (match snl with Some names => names | None => default_names nl end)
    [] [] (random_key seed).

(** [Equations(n_vars, n_eqs, max_sum_terms, max_mult_terms, non_lins,
    sym_non_lins, seed)]: the object, or the exception that left the
    constructor (and then no object is bound). *)
Definition init (nv ne mst mmt : Z) (nl : list nonlin)
    (snl : option (list string)) (seed : Z) : result Equations :=
  match init_body (init_state nv ne mst mmt nl snl seed) with
  | (Ok _, self) => Ok self
  | (Raise e, _) => Raise e
  end.

(** *** [__getitem__] *)

Definition getitem (self : Equations) (idx : Z) : result (equation * string) :=
  e <-? py_getitem (equations self) idx ;;
  s <-? py_getitem (sym_expr self) idx ;;
  Ok (e, s).

(** *** [__call__] *)

(** Line 110, one round of [for func in self.equations[i][j][k]]. *)
Definition apply_func (y : list num) (k : nat) (func : nonlin) (addend : num)
  : M num :=
  lift (yk <-? py_getitem y (Z.of_nat k) ;;
        v <-? call_nonlin func yk ;;
        Ok (num_mul addend v)).

(** [self.equations[i][j]] *)
Definition get_term (i j : nat) : M term :=
  self <- get ;;
  lift (e <-? py_getitem (equations self) (Z.of_nat i) ;;
        py_getitem e (Z.of_nat j)).

(** Lines 108-110, one round of [for k in func_idxs]. *)
Definition apply_slot (y : list num) (i j k : nat) (addend : num) : M num :=
  tm <- get_term i j ;;
  s <- lift (py_getitem tm (Z.of_nat k)) ;;
  match s with
  | Funcs fs => for_each fs (apply_func y k) addend
  | One => lift (Raise TypeError)
  end.

(** Lines 103-112, one round of [for j in range(len(self.equations[i]))]. *)
Definition add_term (y : list num) (i j : nat) (eq : num) : M num :=
  tm <- get_term i j ;;
  let func_idxs :=
    map fst (filter (fun ke => not_one (snd ke)) (enumerate tm)) in
  addend <- for_each func_idxs (apply_slot y i j) num1 ;;
  ret (num_add eq addend).

(** Lines 98-114, one round of [for i in range(self.n_eqs)]. *)
Definition eval_equation (y : list num) (i : nat) (f : list num)
  : M (list num) :=
  self <- get ;;
  e <- lift (py_getitem (equations self) (Z.of_nat i)) ;;
  eq <- for_each (py_range (Z.of_nat (length e))) (add_term y i) num0 ;;
  ret (f ++ [eq]).

(** [self(t, y)] *)
Definition call {T} (t : T) (y : list num) : M (list num) :=
  self <- get ;;
  for_each (py_range (n_eqs self)) (eval_equation y) [].

End Methods.

(** ** Reasoning about methods *)

Section Reasoning.

Context {J : JaxRandom} {P : PySet} {N : Numeric}.

(** What a computation returns or raises, and the object it leaves. *)
Definition run {A} (c : M A) (self : Equations) : result A := fst (c self).
Definition final {A} (c : M A) (self : Equations) : Equations :=
  snd (c self).

(** A computation that assigns to no attribute. *)
Definition readonly {A} (c : M A) : Prop := forall self, final c self = self.

(** Postconditions: [Q] on the value and the object when [c] returns,
    [E] on the exception when it raises. *)
Definition post {A} (c : M A) (self : Equations)
    (Q : A -> Equations -> Prop) (E : exn -> Prop) : Prop :=
  match c self with
  | (Ok a, self') => Q a self'
  | (Raise e, _) => E e
  end.

Definition rpost {A} (r : result A) (Q : A -> Prop) (E : exn -> Prop) : Prop :=
  match r with
  | Ok a => Q a
  | Raise e => E e
  end.

(** [self.equations[i][j]], an [IndexError] when there is none. *)
Definition lookup_term (self : Equations) (i j : nat) : result term :=
  match nth_error (equations self) i with
  | Some e => match nth_error e j with
              | Some tm => Ok tm
              | None => Raise IndexError
              end
  | None => Raise IndexError
  end.

(** The evaluator once the reads of [self.equations] are resolved:
    lines 108-110 for one slot, 105-110 for a term, 100-112 for an
    equation and 95-116 for the list of equations. *)
Definition slot_value (y : list num) (k : nat) (fs : list nonlin) (addend : num)
  : result num :=
  for_each_r fs
    (fun func addend =>
       yk <-? py_getitem y (Z.of_nat k) ;;
       v <-? call_nonlin func yk ;;
       Ok (num_mul addend v))
    addend.

Definition term_value (y : list num) (tm : term) : result num :=
  for_each_r (enumerate tm)
    (fun ks addend =>
       match snd ks with
       | One => Ok addend
       | Funcs fs => slot_value y (fst ks) fs addend
       end)
    num1.

Definition equation_value (y : list num) (e : equation) : result num :=
  for_each_r e
    (fun tm eq => addend <-? term_value y tm ;; Ok (num_add eq addend))
    num0.

Definition values (y : list num) (es : list equation) : result (list num) :=
  for_each_r es (fun e f => eq <-? equation_value y e ;; Ok (f ++ [eq])) [].

(** The configuration attributes of two states of the object agree. *)
Definition same_config (a b : Equations) : Prop :=
  n_vars b = n_vars a /\ n_eqs b = n_eqs a /\
  max_sum_terms b = max_sum_terms a /\ max_mult_terms b = max_mult_terms a /\
  non_lins b = non_lins a /\ sym_non_lins b = sym_non_lins a.

(** The string line 51 starts equation [i] with, and the string of
    equation [i] once the symbolic expressions [syms] of its addends
    have been appended (line 79) and the last separator cut (line 83). *)
Definition label (i : nat) : string :=
  ("f_{" ++ str_of_Z (Z.of_nat i + 1) ++ "} = ")%string.

Definition rendered_equation (i : nat) (syms : list string) : string :=
  drop_last3
    (fold_left (fun sym_eq sym_addend => (sym_eq ++ (sym_addend ++ " + "))%string)
       syms (label i)).

(** Equation [e] and string [s] at index [i] belong together: [s] is
    made of the symbolic expressions of the addends of [e], addend by
    addend; [addend_ok] is what is known of an addend and its
    expression, [count_ok] of the number of addends. *)
Definition equation_ok (addend_ok : term -> string -> Prop)
    (count_ok : nat -> Prop) (i : nat) (e : equation) (s : string) : Prop :=
  count_ok (length e) /\
  exists syms, Forall2 addend_ok e syms /\ s = rendered_equation i syms.

(** The parallel lists of a generated object. *)
Definition generated_ok (addend_ok : term -> string -> Prop)
    (count_ok : nat -> Prop) (self : Equations) : Prop :=
  Z.of_nat (length (equations self)) = n_eqs self /\
  Z.of_nat (length (sym_expr self)) = n_eqs self /\
  forall i e s,
    nth_error (equations self) i = Some e ->
    nth_error (sym_expr self) i = Some s ->
    equation_ok addend_ok count_ok i e s.


End Reasoning.

(** ** The right-hand side as the specification words it

    The value of an equation at [y] written as a sum of products, to be
    compared with what [call] computes. *)

Section Specification.

Context {N : Numeric}.

(** The number a nonlinearity returns (where it raises, the value is
    irrelevant). *)
Definition value (o : outcome) : num :=
  match o with Returns v => v | Raises _ => num0 end.

(** The factors a slot contributes: none for the identity marker, and
    each of its nonlinearities applied to [y[k]], in stored order. *)
Definition spec_factors (y : list num) (k : nat) (s : slot) : list num :=
  match s with
  | One => []
  | Funcs fs => map (fun f : nonlin => value (f (nth k y num0))) fs
  end.

(** The product over the slots of a term. *)
Definition spec_product (y : list num) (tm : term) : num :=
  fold_left num_mul
    (flat_map (fun ks => spec_factors y (fst ks) (snd ks)) (enumerate tm))
    num1.

(** The sum over the terms of an equation. *)
Definition spec_sum (y : list num) (e : equation) : num :=
  fold_left num_add (map (spec_product y) e) num0.

(** Every entry of [y] lies in the domain of every nonlinearity of the
    palette. *)
Definition in_domains (nl : list nonlin) (y : list num) : Prop :=
  forall f v, In f nl -> In v y -> returns (f v) = true.

(** A term all of whose slots are the identity marker. *)
Definition all_identity (tm : term) : Prop := Forall (fun s => s = One) tm.

(** The indices of the non-identity slots of a term. *)
Definition used_vars (tm : term) : list nat :=
  map fst (filter (fun ks => not_one (snd ks)) (enumerate tm)).

(** Every non-identity slot of the term has its index within [y]. *)
Definition reads_within (y : list num) (tm : term) : Prop :=
  forall k, In k (used_vars tm) -> (k < length y)%nat.

(** Every nonlinearity of the term returns on the entry of [y] it is
    applied to. *)
Definition defined_on (y : list num) (tm : term) : Prop :=
  forall k fs f,
    nth_error tm k = Some (Funcs fs) -> In f fs ->
    returns (f (nth k y num0)) = true.

(** The nonlinearities of the term come from the palette [nl]. *)
Definition uses_palette (nl : list nonlin) (tm : term) : Prop :=
  forall k fs, nth_error tm k = Some (Funcs fs) -> incl fs nl.

(** No slot of the term holds an empty list of nonlinearities. *)
Definition nonempty_slots (tm : term) : Prop :=
  forall k, nth_error tm k <> Some (Funcs []).

(** The number of non-identity slots of a term. *)
Definition n_used (tm : term) : nat := length (used_vars tm).

(** A configuration as the data model describes it: at least one
    variable, one equation, one addend, one multiplicand and one
    nonlinearity, each nonlinearity with a name. *)
Definition valid_config (nv ne mst mmt : Z) (nl : list nonlin)
    (names : list string) : Prop :=
  1 <= nv /\ 1 <= ne /\ 1 <= mst /\ 1 <= mmt /\
  (1 <= length nl <= length names)%nat.

(** The name with index [k]; the string lines 71-73 append to [sym] for
    the indices [ks] drawn for variable [j]; and the string of the groups
    [(j, ks)] of an addend, in the order the loop of line 67 takes them. *)
Definition name_of (names : list string) (k : Z) : string :=
  match py_getitem names k with Ok s => s | Raise _ => "" end.

Definition factors_expr (names : list string) (j : Z) (ks : list Z)
    (sym : string) : string :=
  fold_left
    (fun sym k =>
       (sym ++ (name_of names k ++ ("(y_{" ++ str_of_Z (j + 1) ++ "})")))%string)
    ks sym.

Definition groups_expr (names : list string) (groups : list (Z * list Z))
  : string :=
  fold_left (fun sym g => factors_expr names (fst g) (snd g) sym) groups "".

(** [sym] is the symbolic expression of the term [tm]: it goes through
    the non-identity slots of [tm], each once, and for slot [j] it lists,
    in stored order, the names of the nonlinearities the slot holds, each
    applied to [y_{j+1}]. *)
Definition renders (nl : list nonlin) (names : list string) (tm : term)
    (sym : string) : Prop :=
  exists groups : list (Z * list Z),
    NoDup (map fst groups) /\
    (forall p, In p (used_vars tm) <-> In (Z.of_nat p) (map fst groups)) /\
    (forall j ks, In (j, ks) groups ->
       0 <= j /\
       exists fs,
         nth_error tm (Z.to_nat j) = Some (Funcs fs) /\
         Forall2 (fun k f => py_getitem nl k = Ok f /\
                             is_ok (py_getitem names k) = true) ks fs) /\
    sym = groups_expr names groups.

End Specification.

(** ** Concrete instances of the environment *)

Module Toy.

(** A small deterministic generator in the place of jax's: keys are
    integers, and [randint] walks through the range from a start that
    the key gives.  On an empty range it returns [minval]. *)
Definition toy_randint (k : Z) (n : nat) (lo hi : Z) : list Z :=
  map (fun i => if lo <? hi
                then lo + (k + Z.of_nat i * (k + 1)) mod (hi - lo)
                else lo)
      (seq 0 n).

#[export] Instance toy_random : JaxRandom := {|
  Key := Z;
  random_key := fun seed => seed;
  random_split := fun k => (3 * k + 1, 5 * k + 2);
  random_randint := toy_randint
|}.

(** The distinct elements, each at its last occurrence. *)
#[export] Instance toy_set : PySet := {|
  list_set := nodup Z.eq_dec
|}.

(** Python's integers. *)
#[export] Instance int_numeric : Numeric := {|
  num := Z;
  num0 := 0;
  num1 := 1;
  num_add := Z.add;
  num_mul := Z.mul
|}.

Definition square : nonlin := fun x => Returns (x * x).
Definition succ : nonlin := fun x => Returns (x + 1).

(** A nonlinearity with a domain: the integer logarithm in base 2. *)
Definition log2 : nonlin :=
  fun x => if x <=? 0 then Raises "math domain error"
           else Returns (Z.log2 x).

End Toy.

(** * Theorems *)

(** ** Lists and indices *)

Lemma py_index_nat (len k : nat) :
  py_index len (Z.of_nat k) =
  if (k <? len)%nat then Ok k else Raise IndexError.
Proof.
  unfold py_index.
  destruct (Nat.ltb_spec k len) as [Hk | Hk].
  - replace (0 <=? Z.of_nat k) with true by (symmetry; apply Z.leb_le; lia).
    replace (Z.of_nat k <? Z.of_nat len) with true
      by (symmetry; apply Z.ltb_lt; lia).
    cbn. now rewrite Nat2Z.id.
  - replace (Z.of_nat k <? Z.of_nat len) with false
      by (symmetry; apply Z.ltb_ge; lia).
    replace (Z.of_nat k <? 0) with false by (symmetry; apply Z.ltb_ge; lia).
    now rewrite !andb_false_r.
Qed.

Lemma py_getitem_nat {A} (l : list A) (k : nat) :
  py_getitem l (Z.of_nat k) =
  match nth_error l k with Some a => Ok a | None => Raise IndexError end.
Proof.
  unfold py_getitem. rewrite py_index_nat.
  destruct (Nat.ltb_spec k (length l)) as [Hk | Hk]; [reflexivity |].
  apply nth_error_None in Hk. now rewrite Hk.
Qed.

Lemma py_index_ok (len : nat) (i : Z) (p : nat) :
  py_index len i = Ok p -> (p < len)%nat.
Proof.
  unfold py_index.
  destruct ((0 <=? i) && (i <? Z.of_nat len)) eqn:E1.
  - apply andb_prop in E1 as [H1 H2].
    apply Z.leb_le in H1. apply Z.ltb_lt in H2.
    intros [= <-]. lia.
  - destruct ((- Z.of_nat len <=? i) && (i <? 0)) eqn:E2; [| discriminate].
    apply andb_prop in E2 as [H1 H2].
    apply Z.leb_le in H1. apply Z.ltb_lt in H2.
    intros [= <-]. lia.
Qed.

Lemma py_index_in_range (len : nat) (i : Z) :
  0 <= i < Z.of_nat len -> py_index len i = Ok (Z.to_nat i).
Proof.
  intros [H1 H2]. unfold py_index.
  apply Z.leb_le in H1. apply Z.ltb_lt in H2. now rewrite H1, H2.
Qed.

Lemma py_index_raises (len : nat) (i : Z) (e : exn) :
  py_index len i = Raise e -> e = IndexError.
Proof.
  unfold py_index.
  destruct ((0 <=? i) && (i <? Z.of_nat len)); [discriminate |].
  destruct ((- Z.of_nat len <=? i) && (i <? 0)); [discriminate |].
  now intros [= <-].
Qed.

Lemma py_getitem_in_range {A} (l : list A) (i : Z) :
  0 <= i < Z.of_nat (length l) -> exists a, py_getitem l i = Ok a /\ In a l.
Proof.
  intros Hi. unfold py_getitem. rewrite py_index_in_range by exact Hi.
  destruct (nth_error l (Z.to_nat i)) as [a |] eqn:E.
  - exists a. split; [reflexivity |]. eapply nth_error_In; eauto.
  - apply nth_error_None in E. lia.
Qed.

Lemma py_getitem_In {A} (l : list A) (i : Z) (a : A) :
  py_getitem l i = Ok a -> In a l.
Proof.
  unfold py_getitem. destruct (py_index (length l) i); [| discriminate].
  destruct (nth_error l a0) eqn:E; [| discriminate].
  intros [= <-]. eapply nth_error_In; eauto.
Qed.

Lemma py_getitem_raises {A} (l : list A) (i : Z) (e : exn) :
  py_getitem l i = Raise e -> e = IndexError.
Proof.
  unfold py_getitem. destruct (py_index (length l) i) eqn:E.
  - destruct (nth_error l a); [discriminate | now intros [= <-]].
  - intros [= <-]. eapply py_index_raises; eauto.
Qed.

Lemma replace_nth_length {A} (l : list A) (p : nat) (a : A) :
  length (replace_nth l p a) = length l.
Proof.
  revert p. induction l as [| x l IH]; intros [| p]; cbn; auto.
Qed.

Lemma replace_nth_Forall {A} (Q : A -> Prop) (l : list A) (p : nat) (a : A) :
  Forall Q l -> Q a -> Forall Q (replace_nth l p a).
Proof.
  intros Hl Ha. revert p.
  induction Hl as [| x l Hx Hl IH]; intros [| p]; cbn; auto.
Qed.

Lemma py_setitem_ok {A} (l l' : list A) (i : Z) (a : A) :
  py_setitem l i a = Ok l' ->
  exists p, (p < length l)%nat /\ l' = replace_nth l p a.
Proof.
  unfold py_setitem. destruct (py_index (length l) i) eqn:E; [| discriminate].
  intros [= <-]. eexists. split; [eapply py_index_ok; eauto | reflexivity].
Qed.

Lemma py_setitem_raises {A} (l : list A) (i : Z) (a : A) (e : exn) :
  py_setitem l i a = Raise e -> e = IndexError.
Proof.
  unfold py_setitem. destruct (py_index (length l) i) eqn:E; [discriminate |].
  intros [= <-]. eapply py_index_raises; eauto.
Qed.

Lemma enumerate_nth {A} (l : list A) (k : nat) (a : A) :
  In (k, a) (enumerate l) <-> nth_error l k = Some a.
Proof.
  unfold enumerate.
  assert (G : forall s, In (k, a) (combine (seq s (length l)) l) <->
                        (s <= k)%nat /\ nth_error l (k - s) = Some a).
  { induction l as [| x l IH]; intros s; cbn.
    - split; [tauto |]. intros [_ H]. now destruct (k - s)%nat.
    - rewrite IH. split.
      + intros [[= <- <-] | [H1 H2]].
        * rewrite Nat.sub_diag. split; [lia | reflexivity].
        * split; [lia |].
          replace (k - s)%nat with (S (k - S s)) by lia. exact H2.
      + intros [H1 H2]. destruct (Nat.eq_dec s k) as [-> | Hne].
        * rewrite Nat.sub_diag in H2. cbn in H2.
          injection H2 as ->. now left.
        * right. split; [lia |].
          replace (k - s)%nat with (S (k - S s)) in H2 by lia. exact H2. }
  rewrite G, Nat.sub_0_r. split; [tauto | intros; split; [lia | assumption]].
Qed.

Lemma enumerate_length {A} (l : list A) : length (enumerate l) = length l.
Proof.
  unfold enumerate. rewrite length_combine, length_seq. apply Nat.min_id.
Qed.

(** ** Loops *)

Section Loops.

Context {J : JaxRandom} {P : PySet} {N : Numeric}.

Lemma for_each_r_app {A S} (l1 l2 : list A) (body : A -> S -> result S)
    (s : S) :
  for_each_r (l1 ++ l2) body s =
  (s' <-? for_each_r l1 body s ;; for_each_r l2 body s').
Proof.
  revert s. induction l1 as [| a l1 IH]; intros s; cbn; [reflexivity |].
  destruct (body a s); cbn; auto.
Qed.

Lemma for_each_r_ext {A S} (l : list A) (b1 b2 : A -> S -> result S) (s : S) :
  (forall a s, In a l -> b1 a s = b2 a s) ->
  for_each_r l b1 s = for_each_r l b2 s.
Proof.
  revert s. induction l as [| a l IH]; intros s H; cbn; [reflexivity |].
  rewrite H by now left. destruct (b2 a s); cbn; [| reflexivity].
  apply IH. intros; apply H; now right.
Qed.

Lemma for_each_r_filter {A S} (p : A -> bool) (l : list A)
    (body : A -> S -> result S) (s : S) :
  for_each_r (filter p l) body s =
  for_each_r l (fun a s => if p a then body a s else Ok s) s.
Proof.
  revert s. induction l as [| a l IH]; intros s; cbn; [reflexivity |].
  destruct (p a); cbn; [| apply IH].
  destruct (body a s); cbn; auto.
Qed.

Lemma for_each_r_map {A B S} (g : A -> B) (l : list A)
    (body : B -> S -> result S) (s : S) :
  for_each_r (map g l) body s = for_each_r l (fun a => body (g a)) s.
Proof.
  revert s. induction l as [| a l IH]; intros s; cbn; [reflexivity |].
  destruct (body (g a) s); cbn; auto.
Qed.

(** A loop over the positions of a list is a loop over its elements. *)
Lemma for_each_r_positions {A S} (l : list A)
    (body : option A -> S -> result S) (s : S) :
  for_each_r (seq 0 (length l)) (fun i => body (nth_error l i)) s =
  for_each_r l (fun a => body (Some a)) s.
Proof.
  assert (G : forall pre s,
             for_each_r (seq (length pre) (length l))
               (fun i => body (nth_error (pre ++ l) i)) s =
             for_each_r l (fun a => body (Some a)) s).
  { induction l as [| a l IH]; intros pre s0; cbn; [reflexivity |].
    rewrite nth_error_app2, Nat.sub_diag by lia. cbn.
    destruct (body (Some a) s0); cbn; [| reflexivity].
    specialize (IH (pre ++ [a]) a0).
    rewrite length_app, <- app_assoc in IH. cbn in IH.
    rewrite Nat.add_1_r in IH. exact IH. }
  apply (G [] s).
Qed.

(** An invariant of the local variables carries through a loop; the
    exceptions of the rounds are those of the loop. *)
Lemma for_each_r_post {A S} (l : list A) (body : A -> S -> result S)
    (I : S -> Prop) (E : exn -> Prop) (s : S) :
  (forall a s, In a l -> I s -> rpost (body a s) I E) ->
  I s -> rpost (for_each_r l body s) I E.
Proof.
  revert s. induction l as [| a l IH]; intros s Hb Hs; cbn; [exact Hs |].
  pose proof (Hb a s (or_introl eq_refl) Hs) as Ha.
  destruct (body a s); cbn in *; [| exact Ha].
  apply IH; [| exact Ha]. intros; apply Hb; [now right | assumption].
Qed.

(** A round that raises whatever the local variables are makes the loop
    raise. *)
Lemma for_each_r_raises {A S} (l : list A) (body : A -> S -> result S)
    (a : A) (s : S) :
  In a l -> (forall s, is_ok (body a s) = false) ->
  is_ok (for_each_r l body s) = false.
Proof.
  revert s. induction l as [| x l IH]; intros s Hin Ha; [destruct Hin |].
  destruct Hin as [-> | Hin]; cbn.
  - specialize (Ha s). destruct (body a s); [discriminate | reflexivity].
  - destruct (body x s); cbn; [| reflexivity]. now apply IH.
Qed.

Lemma readonly_ret {A} (a : A) : readonly (ret a).
Proof. intros self. reflexivity. Qed.

Lemma readonly_get : readonly get.
Proof. intros self. reflexivity. Qed.

Lemma readonly_lift {A} (r : result A) : readonly (lift r).
Proof. intros self. reflexivity. Qed.

Lemma readonly_bind {A B} (c : M A) (k : A -> M B) :
  readonly c -> (forall a, readonly (k a)) -> readonly (bind c k).
Proof.
  intros Hc Hk self. specialize (Hc self).
  unfold final, bind in *. destruct (c self) as [[a | e] self']; cbn in *.
  - subst self'. apply Hk.
  - exact Hc.
Qed.

Lemma readonly_for_each {A S} (l : list A) (body : A -> S -> M S) (s : S) :
  (forall a s, readonly (body a s)) -> readonly (for_each l body s).
Proof.
  intros Hb. revert s. induction l as [| a l IH]; intros s; cbn.
  - apply readonly_ret.
  - apply readonly_bind; auto.
Qed.

Lemma run_bind {A B} (c : M A) (k : A -> M B) (self : Equations) :
  readonly c ->
  run (bind c k) self = (a <-? run c self ;; run (k a) self).
Proof.
  intros Hc. specialize (Hc self). unfold run, final, bind in *.
  destruct (c self) as [[a | e] self']; cbn in *; [now subst | reflexivity].
Qed.

Lemma run_for_each {A S} (l : list A) (body : A -> S -> M S) (s : S)
    (self : Equations) :
  (forall a s, readonly (body a s)) ->
  run (for_each l body s) self =
  for_each_r l (fun a s => run (body a s) self) s.
Proof.
  intros Hb. revert s. induction l as [| a l IH]; intros s; cbn.
  - reflexivity.
  - rewrite run_bind by auto. destruct (run (body a s) self); cbn; auto.
Qed.

End Loops.

(** ** The evaluator reads the object and nothing else *)

Section Evaluator.

Context {J : JaxRandom} {P : PySet} {N : Numeric}.

Lemma readonly_apply_func (y : list num) (k : nat) (f : nonlin) (a : num) :
  readonly (apply_func y k f a).
Proof. apply readonly_lift. Qed.

Lemma readonly_get_term (i j : nat) : readonly (get_term i j).
Proof.
  apply readonly_bind; [apply readonly_get | intros; apply readonly_lift].
Qed.

Lemma readonly_apply_slot (y : list num) (i j k : nat) (a : num) :
  readonly (apply_slot y i j k a).
Proof.
  apply readonly_bind; [apply readonly_get_term | intros tm].
  apply readonly_bind; [apply readonly_lift | intros [| fs]].
  - apply readonly_lift.
  - apply readonly_for_each. intros; apply readonly_apply_func.
Qed.

Lemma readonly_add_term (y : list num) (i j : nat) (eq : num) :
  readonly (add_term y i j eq).
Proof.
  apply readonly_bind; [apply readonly_get_term | intros tm].
  apply readonly_bind; [| intros; apply readonly_ret].
  apply readonly_for_each. intros; apply readonly_apply_slot.
Qed.

Lemma readonly_eval_equation (y : list num) (i : nat) (f : list num) :
  readonly (eval_equation y i f).
Proof.
  apply readonly_bind; [apply readonly_get | intros self].
  apply readonly_bind; [apply readonly_lift | intros e].
  apply readonly_bind; [| intros; apply readonly_ret].
  apply readonly_for_each. intros; apply readonly_add_term.
Qed.

Lemma readonly_call {T} (t : T) (y : list num) : readonly (call t y).
Proof.
  apply readonly_bind; [apply readonly_get | intros self].
  apply readonly_for_each. intros; apply readonly_eval_equation.
Qed.

Lemma run_get_term (i j : nat) (self : Equations) :
  run (get_term i j) self = lookup_term self i j.
Proof.
  unfold run, get_term, lookup_term, bind, get, lift. cbn.
  rewrite py_getitem_nat. destruct (nth_error (equations self) i); cbn; auto.
  apply py_getitem_nat.
Qed.

Lemma run_apply_slot (y : list num) (i j k : nat) (a : num)
    (self : Equations) (tm : term) (s : slot) :
  lookup_term self i j = Ok tm -> nth_error tm k = Some s ->
  run (apply_slot y i j k a) self =
  match s with
  | One => Raise TypeError
  | Funcs fs => slot_value y k fs a
  end.
Proof.
  intros Htm Hs. unfold apply_slot.
  rewrite run_bind, run_get_term, Htm by apply readonly_get_term. cbn.
  rewrite run_bind by apply readonly_lift.
  unfold run at 1, lift. cbn. rewrite py_getitem_nat, Hs. cbn.
  destruct s as [| fs]; [reflexivity |].
  rewrite run_for_each by (intros; apply readonly_apply_func).
  reflexivity.
Qed.

Lemma run_add_term (y : list num) (i j : nat) (eq : num) (self : Equations) :
  run (add_term y i j eq) self =
  (tm <-? lookup_term self i j ;;
   addend <-? term_value y tm ;;
   Ok (num_add eq addend)).
Proof.
  unfold add_term.
  rewrite run_bind, run_get_term by apply readonly_get_term.
  destruct (lookup_term self i j) as [tm | e] eqn:Htm; cbn; [| reflexivity].
  rewrite run_bind
    by (apply readonly_for_each; intros; apply readonly_apply_slot).
  rewrite run_for_each by (intros; apply readonly_apply_slot).
  rewrite for_each_r_map, for_each_r_filter.
  unfold term_value.
  erewrite for_each_r_ext; [reflexivity |].
  intros [k s] a Hin. cbn.
  apply enumerate_nth in Hin.
  destruct s as [| fs]; cbn; [reflexivity |].
  now rewrite (@run_apply_slot y i j k a self tm _ Htm Hin).
Qed.

Lemma run_eval_equation (y : list num) (i : nat) (f : list num)
    (self : Equations) :
  run (eval_equation y i f) self =
  match nth_error (equations self) i with
  | Some e => eq <-? equation_value y e ;; Ok (f ++ [eq])
  | None => Raise IndexError
  end.
Proof.
  unfold eval_equation.
  rewrite run_bind by apply readonly_get. cbn.
  rewrite run_bind by apply readonly_lift.
  unfold run at 1, lift. cbn. rewrite py_getitem_nat.
  destruct (nth_error (equations self) i) as [e |] eqn:He; cbn;
    [| reflexivity].
  rewrite run_bind
    by (apply readonly_for_each; intros; apply readonly_add_term).
  rewrite run_for_each by (intros; apply readonly_add_term).
  unfold py_range. rewrite Nat2Z.id. unfold equation_value.
  rewrite <- (for_each_r_positions e
    (fun o eq => match o with
                 | Some tm => addend <-? term_value y tm ;;
                              Ok (num_add eq addend)
                 | None => Raise IndexError
                 end)).
  erewrite for_each_r_ext; [reflexivity |].
  intros j eq _. cbn. rewrite run_add_term. unfold lookup_term.
  rewrite He. destruct (nth_error e j); reflexivity.
Qed.

(** On an object that holds [n_eqs] equations, a call computes the
    values of the equations, one after the other. *)
Lemma run_call {T} (t : T) (y : list num) (self : Equations) :
  Z.of_nat (length (equations self)) = n_eqs self ->
  run (call t y) self = values y (equations self).
Proof.
  intros Hlen. unfold call.
  rewrite run_bind by apply readonly_get. cbn.
  rewrite run_for_each by (intros; apply readonly_eval_equation).
  unfold py_range. rewrite <- Hlen, Nat2Z.id. unfold values.
  rewrite <- (for_each_r_positions (equations self)
    (fun o f => match o with
                | Some e => eq <-? equation_value y e ;; Ok (f ++ [eq])
                | None => Raise IndexError
                end)).
  apply for_each_r_ext. intros i f _. apply run_eval_equation.
Qed.

End Evaluator.

(** ** What the evaluator computes *)

Section Values.

Context {N : Numeric}.

Lemma used_vars_In (tm : term) (k : nat) :
  In k (used_vars tm) <-> exists fs, nth_error tm k = Some (Funcs fs).
Proof.
  unfold used_vars. rewrite in_map_iff. split.
  - intros [[k' s] [<- Hin]]. apply filter_In in Hin as [Hin Hs].
    apply enumerate_nth in Hin. destruct s as [| fs]; [discriminate |].
    now exists fs.
  - intros [fs Hk]. exists (k, Funcs fs). split; [reflexivity |].
    apply filter_In. split; [now apply enumerate_nth | reflexivity].
Qed.

Lemma slot_value_ok (y : list num) (k : nat) (fs : list nonlin) (a : num) :
  (k < length y)%nat ->
  (forall f, In f fs -> returns (f (nth k y num0)) = true) ->
  slot_value y k fs a =
  Ok (fold_left num_mul (map (fun f : nonlin => value (f (nth k y num0))) fs) a).
Proof.
  intros Hk. unfold slot_value. rewrite py_getitem_nat.
  rewrite (nth_error_nth' y num0 Hk).
  revert a. induction fs as [| f fs IH]; intros a Hfs; cbn; [reflexivity |].
  pose proof (Hfs f (or_introl eq_refl)) as Hf.
  unfold call_nonlin. destruct (f (nth k y num0)); [| discriminate]. cbn.
  apply IH. intros; apply Hfs; now right.
Qed.

(** A slot past the end of [y] raises at its first nonlinearity. *)
Lemma slot_value_out_of_range (y : list num) (k : nat) (fs : list nonlin)
    (a : num) :
  (length y <= k)%nat -> fs <> [] -> slot_value y k fs a = Raise IndexError.
Proof.
  intros Hk Hfs. destruct fs as [| f fs]; [contradiction |].
  unfold slot_value. cbn. rewrite py_getitem_nat.
  apply nth_error_None in Hk. now rewrite Hk.
Qed.

(** Within [y], a slot raises only what a nonlinearity raises. *)
Lemma slot_value_within (y : list num) (k : nat) (fs : list nonlin) (a : num) :
  (k < length y)%nat ->
  rpost (slot_value y k fs a) (fun _ => True)
        (fun e => exists msg, e = Raised msg).
Proof.
  intros Hk. unfold slot_value.
  apply for_each_r_post; [| exact I].
  intros f a' _ _. rewrite py_getitem_nat, (nth_error_nth' y num0 Hk). cbn.
  unfold call_nonlin. destruct (f (nth k y num0)); cbn; eauto.
Qed.

(** Where the nonlinearities return, a slot raises only [IndexError]. *)
Lemma slot_value_defined (y : list num) (k : nat) (fs : list nonlin) (a : num) :
  (forall f v, In f fs -> In v y -> returns (f v) = true) ->
  rpost (slot_value y k fs a) (fun _ => True) (fun e => e = IndexError).
Proof.
  intros Hfs. unfold slot_value.
  apply for_each_r_post; [| exact I].
  intros f a' Hf _. rewrite py_getitem_nat.
  destruct (nth_error y k) as [yk |] eqn:Hy; cbn; [| reflexivity].
  apply nth_error_In in Hy. specialize (Hfs f yk Hf Hy).
  unfold call_nonlin. destruct (f yk); [exact I | discriminate].
Qed.

Lemma term_value_ok (y : list num) (tm : term) :
  reads_within y tm -> defined_on y tm ->
  term_value y tm = Ok (spec_product y tm).
Proof.
  intros Hr Hd. unfold term_value, spec_product.
  assert (G : forall ps a,
             incl ps (enumerate tm) ->
             for_each_r ps
               (fun ks addend =>
                  match snd ks with
                  | One => Ok addend
                  | Funcs fs => slot_value y (fst ks) fs addend
                  end) a =
             Ok (fold_left num_mul
                   (flat_map (fun ks => spec_factors y (fst ks) (snd ks)) ps)
                   a)).
  { induction ps as [| [k s] ps IH]; intros a Hps; cbn; [reflexivity |].
    assert (Hks : nth_error tm k = Some s)
      by (apply enumerate_nth, Hps; now left).
    assert (Hps' : incl ps (enumerate tm))
      by (intros x Hx; apply Hps; now right).
    destruct s as [| fs]; cbn.
    - now apply IH.
    - rewrite slot_value_ok.
      + cbn. rewrite fold_left_app. now apply IH.
      + apply Hr, used_vars_In. eauto.
      + intros f Hf. eapply Hd; eauto. }
  apply G, incl_refl.
Qed.

Lemma term_value_within (y : list num) (tm : term) :
  reads_within y tm ->
  rpost (term_value y tm) (fun _ => True)
        (fun e => exists msg, e = Raised msg).
Proof.
  intros Hr. unfold term_value. apply for_each_r_post; [| exact I].
  intros [k s] a Hin _. apply enumerate_nth in Hin.
  destruct s as [| fs]; cbn; [exact I |].
  apply slot_value_within, Hr, used_vars_In. eauto.
Qed.

Lemma term_value_defined (nl : list nonlin) (y : list num) (tm : term) :
  uses_palette nl tm -> in_domains nl y ->
  rpost (term_value y tm) (fun _ => True) (fun e => e = IndexError).
Proof.
  intros Hp Hd. unfold term_value. apply for_each_r_post; [| exact I].
  intros [k s] a Hin _. apply enumerate_nth in Hin.
  destruct s as [| fs]; cbn; [exact I |].
  apply slot_value_defined. intros f v Hf Hv.
  apply Hd; [| exact Hv]. eapply Hp; eauto.
Qed.

Lemma term_value_out_of_range (y : list num) (tm : term) (k : nat) :
  nonempty_slots tm -> In k (used_vars tm) -> (length y <= k)%nat ->
  is_ok (term_value y tm) = false.
Proof.
  intros Hne Hk Hlen. apply used_vars_In in Hk as [fs Hk].
  unfold term_value.
  apply for_each_r_raises with (a := (k, Funcs fs)).
  - now apply enumerate_nth.
  - intros a. cbn. rewrite slot_value_out_of_range; auto.
    intros ->. exact (Hne k Hk).
Qed.

Lemma equation_value_ok (y : list num) (e : equation) :
  Forall (reads_within y) e -> Forall (defined_on y) e ->
  equation_value y e = Ok (spec_sum y e).
Proof.
  intros Hr Hd. unfold equation_value, spec_sum.
  generalize num0 as a. induction e as [| tm e IH]; intros a; cbn;
    [reflexivity |].
  inversion Hr; inversion Hd; subst.
  rewrite term_value_ok by assumption. cbn. now apply IH.
Qed.

Lemma equation_value_within (y : list num) (e : equation) :
  Forall (reads_within y) e ->
  rpost (equation_value y e) (fun _ => True)
        (fun e => exists msg, e = Raised msg).
Proof.
  intros Hr. unfold equation_value. apply for_each_r_post; [| exact I].
  intros tm a Hin _. rewrite Forall_forall in Hr.
  pose proof (term_value_within (Hr tm Hin)) as H.
  destruct (term_value y tm); cbn in *; auto.
Qed.

Lemma equation_value_defined (nl : list nonlin) (y : list num) (e : equation) :
  Forall (uses_palette nl) e -> in_domains nl y ->
  rpost (equation_value y e) (fun _ => True) (fun e => e = IndexError).
Proof.
  intros Hp Hd. unfold equation_value. apply for_each_r_post; [| exact I].
  intros tm a Hin _. rewrite Forall_forall in Hp.
  pose proof (term_value_defined (Hp tm Hin) Hd) as H.
  destruct (term_value y tm); cbn in *; auto.
Qed.

Lemma equation_value_out_of_range (y : list num) (e : equation) (tm : term)
    (k : nat) :
  In tm e -> nonempty_slots tm -> In k (used_vars tm) ->
  (length y <= k)%nat ->
  is_ok (equation_value y e) = false.
Proof.
  intros Hin Hne Hk Hlen. unfold equation_value.
  apply for_each_r_raises with (a := tm); [exact Hin |].
  intros a. pose proof (@term_value_out_of_range y tm k Hne Hk Hlen) as H.
  destruct (term_value y tm); [discriminate | reflexivity].
Qed.

Lemma values_ok (y : list num) (es : list equation) :
  Forall (Forall (reads_within y)) es -> Forall (Forall (defined_on y)) es ->
  values y es = Ok (map (spec_sum y) es).
Proof.
  intros Hr Hd. unfold values.
  assert (G : forall f, for_each_r es
             (fun e f => eq <-? equation_value y e ;; Ok (f ++ [eq])) f =
             Ok (f ++ map (spec_sum y) es)).
  { induction es as [| e es IH]; intros f; cbn.
    - now rewrite app_nil_r.
    - inversion Hr; inversion Hd; subst.
      rewrite equation_value_ok by assumption. cbn.
      rewrite IH by assumption. now rewrite <- app_assoc. }
  apply G.
Qed.

Lemma values_within (y : list num) (es : list equation) :
  Forall (Forall (reads_within y)) es ->
  rpost (values y es) (fun _ => True) (fun e => exists msg, e = Raised msg).
Proof.
  intros Hr. unfold values. apply for_each_r_post; [| exact I].
  intros e f Hin _. rewrite Forall_forall in Hr.
  pose proof (equation_value_within (Hr e Hin)) as H.
  destruct (equation_value y e); cbn in *; auto.
Qed.

Lemma values_defined (nl : list nonlin) (y : list num) (es : list equation) :
  Forall (Forall (uses_palette nl)) es -> in_domains nl y ->
  rpost (values y es) (fun _ => True) (fun e => e = IndexError).
Proof.
  intros Hp Hd. unfold values. apply for_each_r_post; [| exact I].
  intros e f Hin _. rewrite Forall_forall in Hp.
  pose proof (equation_value_defined (Hp e Hin) Hd) as H.
  destruct (equation_value y e); cbn in *; auto.
Qed.

Lemma values_out_of_range (y : list num) (es : list equation) (e : equation)
    (tm : term) (k : nat) :
  In e es -> In tm e -> nonempty_slots tm -> In k (used_vars tm) ->
  (length y <= k)%nat ->
  is_ok (values y es) = false.
Proof.
  intros He Htm Hne Hk Hlen. unfold values.
  apply for_each_r_raises with (a := e); [exact He |].
  intros f. pose proof (@equation_value_out_of_range y e tm k Htm Hne Hk Hlen) as H.
  destruct (equation_value y e); [discriminate | reflexivity].
Qed.

Lemma values_length (y : list num) (es : list equation) (f : list num) :
  values y es = Ok f -> length f = length es.
Proof.
  unfold values.
  assert (G : forall f0 f, for_each_r es
             (fun e f => eq <-? equation_value y e ;; Ok (f ++ [eq])) f0 =
             Ok f -> length f = (length f0 + length es)%nat).
  { induction es as [| e es IH]; intros f0 f1; cbn.
    - intros [= <-]. lia.
    - destruct (equation_value y e); cbn; [| discriminate].
      intros H. apply IH in H. rewrite length_app in H. cbn in H. lia. }
  intros H. now apply G in H.
Qed.

End Values.

(** ** The generator: loops and their invariants *)

Section Generator.

Context {J : JaxRandom} {P : PySet} {N : Numeric}.

Lemma rpost_weaken {A} (r : result A) (Q Q' : A -> Prop) (E E' : exn -> Prop) :
  rpost r Q E -> (forall a, Q a -> Q' a) -> (forall e, E e -> E' e) ->
  rpost r Q' E'.
Proof. destruct r; cbn; auto. Qed.

Lemma post_weaken {A} (c : M A) (self : Equations)
    (Q Q' : A -> Equations -> Prop) (E E' : exn -> Prop) :
  post c self Q E -> (forall a s, Q a s -> Q' a s) ->
  (forall e, E e -> E' e) -> post c self Q' E'.
Proof. unfold post. destruct (c self) as [[a | e] s]; auto. Qed.

Lemma post_bind {A B} (c : M A) (k : A -> M B) (self : Equations)
    (Q : B -> Equations -> Prop) (E : exn -> Prop) :
  post c self (fun a self' => post (k a) self' Q E) E ->
  post (bind c k) self Q E.
Proof. unfold post, bind. destruct (c self) as [[a | e] s]; auto. Qed.

Lemma post_lift {A} (r : result A) (self : Equations)
    (Q : A -> Equations -> Prop) (E : exn -> Prop) :
  rpost r (fun a => Q a self) E -> post (lift r) self Q E.
Proof. unfold post, lift. destruct r; auto. Qed.

Lemma for_each_post {A S} (l : list A) (body : A -> S -> M S)
    (I : nat -> S -> Equations -> Prop) (E : exn -> Prop)
    (s : S) (self : Equations) :
  (forall n a s self,
      nth_error l n = Some a -> I n s self ->
      post (body a s) self (I (Datatypes.S n)) E) ->
  I O s self -> post (for_each l body s) self (I (length l)) E.
Proof.
  revert I s self.
  induction l as [| a l IH]; intros I s self Hb H0; cbn; [exact H0 |].
  apply post_bind.
  eapply post_weaken; [apply (Hb O a s self eq_refl H0) | | auto].
  intros s' self' H1. cbn beta.
  apply (IH (fun n => I (Datatypes.S n))); [| exact H1].
  intros n a' s0 self0 Hn. apply (Hb (Datatypes.S n)). exact Hn.
Qed.

Lemma for_each_r_post_n {A S} (l : list A) (body : A -> S -> result S)
    (I : nat -> S -> Prop) (E : exn -> Prop) (s : S) :
  (forall n a s, nth_error l n = Some a -> I n s ->
                 rpost (body a s) (I (Datatypes.S n)) E) ->
  I O s -> rpost (for_each_r l body s) (I (length l)) E.
Proof.
  revert I s.
  induction l as [| a l IH]; intros I s Hb H0; cbn; [exact H0 |].
  pose proof (Hb O a s eq_refl H0) as H1.
  destruct (body a s) as [s' | e]; cbn in *; [| exact H1].
  apply (IH (fun n => I (Datatypes.S n))); [| exact H1].
  intros n a' s0 Hn. apply (Hb (Datatypes.S n)). exact Hn.
Qed.

Lemma same_config_refl (a : Equations) : same_config a a.
Proof. repeat split. Qed.

Lemma same_config_trans (a b c : Equations) :
  same_config a b -> same_config b c -> same_config a c.
Proof.
  unfold same_config. intros (?&?&?&?&?&?) (?&?&?&?&?&?).
  repeat split; congruence.
Qed.

Lemma draw_addend_config (a b : Equations) (k : Key) :
  same_config a b -> draw_addend b k = draw_addend a k.
Proof.
  intros (H1 & H2 & H3 & H4 & H5 & H6). unfold draw_addend.
  now rewrite H1, H4, H5, H6.
Qed.

Section Loop.

Variable self0 : Equations.
Variable addend_ok : term -> string -> Prop.
Variable count_ok : nat -> Prop.
Variable E : exn -> Prop.

Hypothesis draw_ok :
  forall k, rpost (draw_addend self0 k)
                  (fun ts => addend_ok (fst ts) (snd ts)) E.

Lemma gen_addend_post (self : Equations) :
  same_config self0 self ->
  post gen_addend self
    (fun ts self' =>
       addend_ok (fst ts) (snd ts) /\ same_config self0 self' /\
       equations self' = equations self /\ sym_expr self' = sym_expr self)
    E.
Proof.
  intros Hc. unfold post, gen_addend, bind, get, modify, lift. cbn.
  destruct (random_split (key self)) as [key' subkey]. cbn.
  rewrite (draw_addend_config subkey Hc).
  specialize (draw_ok subkey).
  destruct (draw_addend self0 subkey) as [ts | e]; cbn in *; [| exact draw_ok].
  repeat split; try exact draw_ok; apply Hc.
Qed.

(** Lines 54-79: the addends of one equation and the string that grows
    with them. *)
Lemma addends_post (i : nat) (cnt : Z) (self : Equations) :
  same_config self0 self ->
  post (for_each (py_range cnt) add_addend ([], label i)) self
    (fun es self' =>
       (length (fst es) = Z.to_nat cnt /\
        exists syms,
          Forall2 addend_ok (fst es) syms /\
          snd es =
          fold_left
            (fun sym_eq sym_addend =>
               (sym_eq ++ (sym_addend ++ " + "))%string)
            syms (label i)) /\
       same_config self0 self' /\
       equations self' = equations self /\ sym_expr self' = sym_expr self)
    E.
Proof.
  intros Hc.
  pose (I := fun (n : nat) (es : equation * string) (self' : Equations) =>
    (length (fst es) = n /\
     exists syms,
       Forall2 addend_ok (fst es) syms /\
       snd es =
       fold_left
         (fun sym_eq sym_addend => (sym_eq ++ (sym_addend ++ " + "))%string)
         syms (label i)) /\
    same_config self0 self' /\
    equations self' = equations self /\ sym_expr self' = sym_expr self).
  assert (H : post (for_each (py_range cnt) add_addend ([], label i)) self
                (I (length (py_range cnt))) E).
  { apply for_each_post.
    - intros n a [equation sym_eq] self1 _ ((Hlen & syms & Hsyms & Hstr) &
        Hc1 & He1 & Hs1).
      cbn in Hlen, Hsyms, Hstr. unfold add_addend. apply post_bind.
      eapply post_weaken; [apply (gen_addend_post Hc1) | | auto].
      intros [addend sym_addend] self2 (Hok & Hc2 & He2 & Hs2).
      cbn in Hok. unfold post, ret, I. cbn.
      repeat split; try apply Hc2; try congruence.
      + rewrite length_app. cbn. lia.
      + exists (syms ++ [sym_addend]). split.
        * apply Forall2_app; auto.
        * rewrite fold_left_app. cbn. now rewrite Hstr.
    - unfold I. cbn. repeat split; try apply Hc. exists []. split; auto. }
  unfold py_range in H at 2. rewrite length_seq in H. exact H.
Qed.

Variable n_sum_terms : list Z.

Hypothesis draw_count_ok :
  forall i, (i < Z.to_nat (n_eqs self0))%nat ->
    rpost (py_getitem n_sum_terms (Z.of_nat i))
          (fun cnt => count_ok (Z.to_nat cnt)) E.

(** Lines 48-84, one round: an equation and its string are appended
    together. *)
Lemma gen_equation_post (i : nat) (self : Equations) :
  (i < Z.to_nat (n_eqs self0))%nat ->
  same_config self0 self ->
  post (gen_equation n_sum_terms i tt) self
    (fun _ self' =>
       same_config self0 self' /\
       exists e s,
         equation_ok addend_ok count_ok i e s /\
         equations self' = equations self ++ [e] /\
         sym_expr self' = sym_expr self ++ [s])
    E.
Proof.
  intros Hi Hc. unfold gen_equation. apply post_bind, post_lift.
  eapply rpost_weaken; [apply (draw_count_ok Hi) | | auto].
  intros cnt Hcnt. cbn beta. apply post_bind.
  eapply post_weaken; [apply (addends_post i cnt Hc) | | auto].
  intros [equation sym_eq] self1 ((Hlen & syms & Hsyms & Hstr) &
    Hc1 & He1 & Hs1).
  cbn in Hlen, Hsyms, Hstr. unfold post, bind, modify. cbn. split.
  - apply Hc1.
  - exists equation, (drop_last3 sym_eq). repeat split.
    + now rewrite Hlen.
    + exists syms. split; [exact Hsyms |].
      unfold rendered_equation. now rewrite Hstr.
    + now rewrite He1.
    + now rewrite Hs1.
Qed.

(** Lines 48-84: the loop over the equations keeps the two lists
    parallel. *)
Lemma equations_post (self : Equations) :
  same_config self0 self -> equations self = [] -> sym_expr self = [] ->
  post (for_each (py_range (n_eqs self0)) (gen_equation n_sum_terms) tt) self
    (fun _ self' =>
       same_config self0 self' /\
       length (equations self') = Z.to_nat (n_eqs self0) /\
       length (sym_expr self') = Z.to_nat (n_eqs self0) /\
       forall i e s,
         nth_error (equations self') i = Some e ->
         nth_error (sym_expr self') i = Some s ->
         equation_ok addend_ok count_ok i e s)
    E.
Proof.
  intros Hc He Hs.
  pose (I := fun (n : nat) (_ : unit) (self' : Equations) =>
    same_config self0 self' /\
    length (equations self') = n /\ length (sym_expr self') = n /\
    forall i e s,
      nth_error (equations self') i = Some e ->
      nth_error (sym_expr self') i = Some s ->
      equation_ok addend_ok count_ok i e s).
  assert (H : post (for_each (py_range (n_eqs self0))
                      (gen_equation n_sum_terms) tt) self
                (I (length (py_range (n_eqs self0)))) E).
  { apply for_each_post.
    - intros n i [] self1 Hn (Hc1 & Hl1 & Hl2 & Hall).
      unfold py_range in Hn.
      assert (Hlt : (n < Z.to_nat (n_eqs self0))%nat).
      { assert (Hsome : nth_error (seq 0 (Z.to_nat (n_eqs self0))) n <> None)
          by congruence.
        apply nth_error_Some in Hsome. now rewrite length_seq in Hsome. }
      assert (Hin : i = n).
      { rewrite nth_error_seq in Hn.
        destruct (Nat.ltb_spec n (Z.to_nat (n_eqs self0))); [| lia].
        now injection Hn as <-. }
      rewrite Hin. clear Hin Hn i.
      eapply post_weaken; [apply (gen_equation_post Hlt Hc1) | | auto].
      intros u self2 (Hc2 & e & s & Hok & He2 & Hs2). unfold I.
      split; [exact Hc2 |]. rewrite He2, Hs2, !length_app. cbn.
      split; [lia |]. split; [lia |].
      intros i e' s' Hi1 Hi2.
      destruct (Nat.lt_ge_cases i n) as [Hlt' | Hge].
      + rewrite nth_error_app1 in Hi1 by lia.
        rewrite nth_error_app1 in Hi2 by lia. eauto.
      + rewrite nth_error_app2 in Hi1 by lia.
        rewrite nth_error_app2 in Hi2 by lia.
        rewrite Hl1 in Hi1. rewrite Hl2 in Hi2.
        destruct (i - n)%nat as [| d] eqn:Hd.
        * cbn in Hi1, Hi2. injection Hi1 as <-. injection Hi2 as <-.
          replace i with n by lia. exact Hok.
        * cbn in Hi1. now destruct d.
    - unfold I. rewrite He, Hs.
      split; [exact Hc |]. split; [reflexivity |]. split; [reflexivity |].
      intros i e s Hi. now destruct i. }
  unfold py_range in H at 2. rewrite length_seq in H. exact H.
Qed.

End Loop.

End Generator.

(** ** The generator: one addend *)

Section Addend.

Context {J : JaxRandom} {P : PySet} {N : Numeric}.

Lemma rpost_and {A} (r : result A) (Q1 Q2 : A -> Prop) (E1 E2 : exn -> Prop) :
  rpost r Q1 E1 -> rpost r Q2 E2 ->
  rpost r (fun a => Q1 a /\ Q2 a) (fun e => E1 e /\ E2 e).
Proof. destruct r; cbn; auto. Qed.

Lemma rpost_rbind {A B} (r : result A) (k : A -> result B)
    (Q : B -> Prop) (E : exn -> Prop) :
  rpost r (fun a => rpost (k a) Q E) E -> rpost (rbind r k) Q E.
Proof. destruct r; cbn; auto. Qed.

Lemma as_shape_ok (n : Z) (d : nat) :
  as_shape n = Ok d -> 0 <= n /\ d = Z.to_nat n.
Proof.
  unfold as_shape. destruct (Z.ltb_spec n 0); [discriminate |].
  intros [= <-]. split; [lia | reflexivity].
Qed.

Lemma as_shape_post (n : Z) :
  rpost (as_shape n) (fun d => 0 <= n /\ d = Z.to_nat n)
        (fun e => e = LibraryError /\ n < 0).
Proof.
  unfold as_shape. destruct (Z.ltb_spec n 0); cbn; split; auto; lia.
Qed.

Lemma np_ones_post (n : Z) :
  rpost (np_ones n) (fun tm => 0 <= n /\ tm = repeat One (Z.to_nat n))
        (fun e => e = LibraryError /\ n < 0).
Proof.
  unfold np_ones, as_shape. destruct (Z.ltb_spec n 0); cbn; split; auto; lia.
Qed.

Lemma py_getitem_post {A} (l : list A) (i : Z) :
  rpost (py_getitem l i) (fun a => In a l)
        (fun e => e = IndexError /\ ~ 0 <= i < Z.of_nat (length l)).
Proof.
  destruct (py_getitem l i) as [a | e] eqn:H; cbn.
  - eapply py_getitem_In; eauto.
  - split; [eapply py_getitem_raises; eauto |].
    intros Hi. apply py_getitem_in_range in Hi as [a [Ha _]]. congruence.
Qed.

Lemma py_setitem_post {A} (l : list A) (i : Z) (a : A) :
  rpost (py_setitem l i a)
        (fun l' => exists p, (p < length l)%nat /\ l' = replace_nth l p a)
        (fun e => e = IndexError /\ ~ 0 <= i < Z.of_nat (length l)).
Proof.
  destruct (py_setitem l i a) as [l' | e] eqn:H; cbn.
  - eapply py_setitem_ok; eauto.
  - split; [eapply py_setitem_raises; eauto |].
    intros Hi. unfold py_setitem in H.
    now rewrite py_index_in_range in H by exact Hi.
Qed.

Lemma nth_error_replace_nth {A} (l : list A) (p k : nat) (a : A) :
  (p < length l)%nat ->
  nth_error (replace_nth l p a) k =
  if Nat.eqb k p then Some a else nth_error l k.
Proof.
  revert p k. induction l as [| x l IH]; intros p k Hp; cbn in Hp; [lia |].
  destruct p as [| p], k as [| k]; cbn; auto. apply IH. lia.
Qed.

Lemma filter_replace_nth {A} (f : A -> bool) (l : list A) (p : nat) (a : A) :
  (length (filter f (replace_nth l p a)) <= S (length (filter f l)))%nat.
Proof.
  revert p. induction l as [| x l IH]; intros p; cbn; [lia |].
  destruct p as [| p]; cbn.
  - destruct (f a), (f x); cbn; lia.
  - specialize (IH p). destruct (f x); cbn; lia.
Qed.

Lemma n_used_filter (tm : term) : n_used tm = length (filter not_one tm).
Proof.
  unfold n_used, used_vars, enumerate. rewrite length_map.
  generalize 0%nat as s.
  induction tm as [| x tm IH]; intros s; cbn; [reflexivity |].
  destruct (not_one x); cbn; now rewrite IH.
Qed.

Lemma n_used_replace_nth (tm : term) (p : nat) (s : slot) :
  (n_used (replace_nth tm p s) <= S (n_used tm))%nat.
Proof. rewrite !n_used_filter. apply filter_replace_nth. Qed.

Lemma n_used_ones (d : nat) : n_used (repeat One d) = 0%nat.
Proof.
  rewrite n_used_filter. induction d as [| d IH]; cbn; auto.
Qed.

Lemma nth_error_ones (d k : nat) (s : slot) :
  nth_error (repeat One d) k = Some s -> s = One.
Proof.
  intros H. apply nth_error_In in H. now apply repeat_spec in H.
Qed.

Lemma uses_palette_replace_nth (nl : list nonlin) (tm : term) (p : nat)
    (temp : list nonlin) :
  (p < length tm)%nat -> uses_palette nl tm -> incl temp nl ->
  uses_palette nl (replace_nth tm p (Funcs temp)).
Proof.
  intros Hp Htm Htemp k fs. rewrite nth_error_replace_nth by exact Hp.
  destruct (Nat.eqb k p); [now intros [= <-] | apply Htm].
Qed.

Lemma nonempty_slots_replace_nth (tm : term) (p : nat) (temp : list nonlin) :
  (p < length tm)%nat -> nonempty_slots tm -> temp <> [] ->
  nonempty_slots (replace_nth tm p (Funcs temp)).
Proof.
  intros Hp Htm Htemp k. rewrite nth_error_replace_nth by exact Hp.
  destruct (Nat.eqb k p); [| apply Htm]. intros [= H]. contradiction.
Qed.

Lemma where_eq_incl (nli vi : list Z) (j k : Z) :
  In k (where_eq nli vi j) -> In k nli.
Proof.
  unfold where_eq. rewrite in_map_iff. intros [[k' v] [<- Hin]].
  apply filter_In in Hin as [Hin _]. eapply in_combine_l; eauto.
Qed.

Lemma where_eq_nonempty (nli vi : list Z) (j : Z) :
  length nli = length vi -> In j vi -> where_eq nli vi j <> [].
Proof.
  unfold where_eq. revert nli.
  induction vi as [| v vi IH]; intros [| k nli] Hlen Hin; cbn in *;
    try discriminate; try contradiction.
  destruct (Z.eqb_spec v j) as [-> | Hne]; cbn; [discriminate |].
  destruct Hin as [-> | Hin]; [contradiction |].
  apply IH; [lia | exact Hin].
Qed.

(** Lines 71-73: the nonlinearities collected for a slot come from the
    palette, one per drawn index. *)
Lemma add_nonlin_loop (nl : list nonlin) (names : list string) (j : Z)
    (idxs : list Z) (sym0 : string) :
  rpost (for_each_r idxs (add_nonlin nl names j) ([], sym0))
        (fun ts => length (fst ts) = length idxs /\ incl (fst ts) nl)
        (fun e => e = IndexError).
Proof.
  pose (I := fun (n : nat) (ts : list nonlin * string) =>
               length (fst ts) = n /\ incl (fst ts) nl).
  apply for_each_r_post_n with (I := I); [| split; easy].
  intros n k [temp sym] _ [Hlen Hincl]. cbn in Hlen, Hincl.
  unfold add_nonlin. cbn [rpost]. apply rpost_rbind.
  eapply rpost_weaken; [apply py_getitem_post | | intros e He; apply He].
  intros f Hf. cbn beta. apply rpost_rbind.
  eapply rpost_weaken; [apply py_getitem_post | | intros e He; apply He].
  intros name _. unfold I. cbn. split.
  - rewrite length_app. cbn. lia.
  - apply incl_app; [exact Hincl |]. intros x [<- | []]. exact Hf.
Qed.

Lemma add_nonlin_loop_total (nl : list nonlin) (names : list string) (j : Z)
    (idxs : list Z) (ts : list nonlin * string) :
  (forall k, In k idxs -> 0 <= k < Z.of_nat (length nl)) ->
  (length nl <= length names)%nat ->
  rpost (for_each_r idxs (add_nonlin nl names j) ts)
        (fun _ => True) (fun _ => False).
Proof.
  intros Hidxs Hnames. apply for_each_r_post; [| exact I].
  intros k [temp sym] Hk _. specialize (Hidxs k Hk).
  unfold add_nonlin. apply rpost_rbind.
  eapply rpost_weaken; [apply py_getitem_post | | intros e He; now apply He].
  intros f _. cbn beta. apply rpost_rbind.
  eapply rpost_weaken; [apply py_getitem_post | | intros e He; apply He; lia].
  intros name _. exact I.
Qed.

(** Lines 67-75, one round: one slot of the addend receives the list of
    nonlinearities drawn for it. *)
Lemma fill_slot_post (nl : list nonlin) (names : list string)
    (nli vi : list Z) (j : Z) (addend : term) (sym : string) :
  rpost (fill_slot nl names nli vi j (addend, sym))
        (fun ts => exists p temp,
             (p < length addend)%nat /\
             fst ts = replace_nth addend p (Funcs temp) /\
             incl temp nl /\ length temp = length (where_eq nli vi j))
        (fun e => e = IndexError).
Proof.
  unfold fill_slot. apply rpost_rbind.
  eapply rpost_weaken; [apply add_nonlin_loop | | auto].
  intros [temp sym'] [Hlen Hincl]. cbn in Hlen, Hincl. apply rpost_rbind.
  eapply rpost_weaken; [apply py_setitem_post | | intros e He; apply He].
  intros addend' (p & Hp & ->). cbn. exists p, temp. auto.
Qed.

Lemma fill_slot_total (nl : list nonlin) (names : list string)
    (nli vi : list Z) (j : Z) (addend : term) (sym : string) :
  0 <= j < Z.of_nat (length addend) ->
  (forall k, In k nli -> 0 <= k < Z.of_nat (length nl)) ->
  (length nl <= length names)%nat ->
  rpost (fill_slot nl names nli vi j (addend, sym))
        (fun _ => True) (fun _ => False).
Proof.
  intros Hj Hnli Hnames. unfold fill_slot. apply rpost_rbind.
  eapply rpost_weaken;
    [apply add_nonlin_loop_total with (idxs := where_eq nli vi j) | | auto];
    [| exact Hnames |].
  - intros k Hk. eapply Hnli, where_eq_incl; eauto.
  - intros [temp sym'] _. apply rpost_rbind.
    eapply rpost_weaken;
      [apply py_setitem_post | | intros e He; now apply He].
    intros addend' _. exact I.
Qed.

(** Whatever the draws, an addend has one slot per variable, filled from
    the palette, and the constructor raises no [ConfigurationError]. *)
Lemma draw_addend_shape (self : Equations) (subkey : Key) :
  rpost (draw_addend self subkey)
        (fun ts => Z.of_nat (length (fst ts)) = n_vars self /\
                   uses_palette (non_lins self) (fst ts))
        (fun e => e = IndexError \/ e = LibraryError).
Proof.
  unfold draw_addend. apply rpost_rbind.
  eapply rpost_weaken; [apply py_getitem_post | | intros e He; left; apply He].
  intros m0 _. apply rpost_rbind.
  eapply rpost_weaken; [apply as_shape_post | | intros e He; right; apply He].
  intros m _. apply rpost_rbind.
  eapply rpost_weaken; [apply np_ones_post | | intros e He; right; apply He].
  intros addend0 [Hnv ->].
  apply for_each_r_post with
    (I := fun ts : term * string =>
            Z.of_nat (length (fst ts)) = n_vars self /\
            uses_palette (non_lins self) (fst ts)).
  - intros j [addend sym] _ [Hlen Hpal]. cbn in Hlen, Hpal.
    eapply rpost_weaken; [apply fill_slot_post | | intros e He; now left].
    intros ts (p & temp & Hp & -> & Hincl & _). split.
    + now rewrite replace_nth_length.
    + now apply uses_palette_replace_nth.
  - cbn. split.
    + rewrite repeat_length. lia.
    + intros k fs Hk. apply nth_error_ones in Hk. discriminate.
Qed.

End Addend.

(** ** The generator under the laws of the environment *)

Section AddendLaws.

Context {J : JaxRandom} {P : PySet} {N : Numeric}.
Context {JL : JaxRandomLaws J} {PL : PySetLaws P}.

Lemma randint_In (k : Key) (n : nat) (lo hi z : Z) :
  lo < hi -> In z (random_randint k n lo hi) -> lo <= z < hi.
Proof.
  intros Hlt Hin. pose proof (randint_range k n Hlt) as H.
  rewrite Forall_forall in H. now apply H.
Qed.

Lemma list_set_length (l : list Z) : (length (list_set l) <= length l)%nat.
Proof.
  apply NoDup_incl_length; [apply list_set_NoDup |].
  intros z Hz. now apply list_set_In.
Qed.

(** No slot is assigned an empty list, and an addend has at most
    [max_mult_terms] non-identity slots. *)
Lemma draw_addend_bounds (self : Equations) (subkey : Key) :
  rpost (draw_addend self subkey)
        (fun ts => nonempty_slots (fst ts) /\
                   (1 <= max_mult_terms self ->
                    Z.of_nat (n_used (fst ts)) <= max_mult_terms self))
        (fun _ => True).
Proof.
  unfold draw_addend. apply rpost_rbind.
  eapply rpost_weaken; [apply py_getitem_post | | auto].
  intros m0 Hm0. apply rpost_rbind.
  eapply rpost_weaken; [apply as_shape_post | | auto].
  intros m [Hm0' ->]. apply rpost_rbind.
  eapply rpost_weaken; [apply np_ones_post | | auto].
  intros addend0 [Hnv ->].
  set (nli := random_randint subkey (Z.to_nat m0) 0
                (Z.of_nat (length (non_lins self)))).
  set (vi := random_randint subkey (Z.to_nat m0) 0 (n_vars self)).
  pose (I := fun (n : nat) (ts : term * string) =>
               nonempty_slots (fst ts) /\ (n_used (fst ts) <= n)%nat).
  eapply rpost_weaken;
    [apply for_each_r_post_n with (I := I) (E := fun _ => True) | | auto].
  - intros n j [addend sym] Hj [Hne Hn]. cbn [fst] in Hne, Hn.
    apply nth_error_In in Hj. apply (proj1 (list_set_In _ _)) in Hj.
    eapply rpost_weaken; [apply fill_slot_post | | auto].
    intros ts (p & temp & Hp & Hts & _ & Hlen). unfold I. rewrite Hts. split.
    + apply nonempty_slots_replace_nth; auto.
      intros ->. cbn in Hlen. symmetry in Hlen.
      apply length_zero_iff_nil in Hlen. revert Hlen.
      apply where_eq_nonempty; [| exact Hj].
      unfold nli, vi. now rewrite !randint_length.
    + pose proof (n_used_replace_nth addend p (Funcs temp)). lia.
  - unfold I. split; cbn [fst].
    + intros k Hk. apply nth_error_ones in Hk. discriminate.
    + now rewrite n_used_ones.
  - intros [tm sym] [Hne Hn]. cbn [fst] in *. split; [exact Hne |].
    intros Hmmt. pose proof (list_set_length vi) as Hl.
    unfold vi at 2 in Hl. rewrite randint_length in Hl.
    apply randint_In in Hm0; lia.
Qed.

(** On a valid configuration no draw is out of range: the addend is
    built. *)
Lemma draw_addend_total (self : Equations) (subkey : Key) :
  1 <= n_vars self -> 1 <= max_mult_terms self ->
  (1 <= length (non_lins self) <= length (sym_non_lins self))%nat ->
  rpost (draw_addend self subkey) (fun _ => True) (fun _ => False).
Proof.
  intros Hnv Hmmt Hnl. unfold draw_addend. apply rpost_rbind.
  eapply rpost_weaken; [apply py_getitem_post | | ].
  2:{ intros e [_ He]. apply He. rewrite randint_length. cbn. lia. }
  intros m0 Hm0. apply randint_In in Hm0; [| lia]. apply rpost_rbind.
  eapply rpost_weaken; [apply as_shape_post | | intros e [_ He]; lia].
  intros m [_ ->]. apply rpost_rbind.
  eapply rpost_weaken; [apply np_ones_post | | intros e [_ He]; lia].
  intros addend0 [_ ->].
  set (nli := random_randint subkey (Z.to_nat m0) 0
                (Z.of_nat (length (non_lins self)))).
  set (vi := random_randint subkey (Z.to_nat m0) 0 (n_vars self)).
  eapply rpost_weaken;
    [apply for_each_r_post with
       (I := fun ts : term * string =>
               length (fst ts) = Z.to_nat (n_vars self))
       (E := fun _ => False) | auto | auto].
  - intros j [addend sym] Hj Hlen. cbn in Hlen.
    apply (proj1 (list_set_In _ _)) in Hj. apply randint_In in Hj; [| lia].
    eapply rpost_weaken;
      [apply rpost_and; [apply fill_slot_post | apply fill_slot_total] | | ].
    + rewrite Hlen. lia.
    + intros k Hk. apply randint_In in Hk; lia.
    + lia.
    + intros ts [(p & temp & Hp & -> & _) _].
      now rewrite replace_nth_length.
    + intros e [_ []].
  - cbn. apply repeat_length.
Qed.

(** The number of addends drawn for an equation. *)
Lemma draw_count_bounds (k : Key) (d : nat) (mst : Z) (i : nat) :
  rpost (py_getitem (random_randint k d 1 (mst + 1)) (Z.of_nat i))
        (fun cnt => 1 <= mst -> 1 <= Z.of_nat (Z.to_nat cnt) <= mst)
        (fun _ => True).
Proof.
  eapply rpost_weaken; [apply py_getitem_post | | auto].
  intros cnt Hcnt Hmst. apply randint_In in Hcnt; lia.
Qed.

Lemma draw_count_total (k : Key) (d : nat) (mst : Z) (i : nat) :
  (i < d)%nat ->
  rpost (py_getitem (random_randint k d 1 (mst + 1)) (Z.of_nat i))
        (fun _ => True) (fun _ => False).
Proof.
  intros Hi. eapply rpost_weaken; [apply py_getitem_post | auto |].
  intros e [_ He]. apply He. rewrite randint_length. lia.
Qed.

End AddendLaws.

(** ** The constructor *)

Section Constructor.

Context {J : JaxRandom} {P : PySet} {N : Numeric}.

Lemma init_body_post (self0 : Equations)
    (addend_ok : term -> string -> Prop) (count_ok : nat -> Prop)
    (E : exn -> Prop) :
  equations self0 = [] -> sym_expr self0 = [] ->
  (forall k, rpost (draw_addend self0 k)
                   (fun ts => addend_ok (fst ts) (snd ts)) E) ->
  (forall i, (i < Z.to_nat (n_eqs self0))%nat ->
     rpost (py_getitem
              (random_randint (key self0) (Z.to_nat (n_eqs self0)) 1
                 (max_sum_terms self0 + 1))
              (Z.of_nat i))
           (fun cnt => count_ok (Z.to_nat cnt)) E) ->
  (n_eqs self0 < 0 -> E LibraryError) ->
  post init_body self0
    (fun _ self => same_config self0 self /\
                   generated_ok addend_ok count_ok self)
    E.
Proof.
  intros He Hs Hdraw Hcount Hneg. unfold init_body.
  apply post_bind. unfold post at 1, get. apply post_bind, post_lift.
  eapply rpost_weaken; [apply as_shape_post | | intros e [-> Hn]; auto].
  intros d [Hn ->]. cbn beta.
  eapply post_weaken;
    [apply (@equations_post _ _ _ self0 addend_ok count_ok E Hdraw _ Hcount
              self0 (same_config_refl self0) He Hs)
    | | auto].
  intros u self (Hc & Hl1 & Hl2 & Hall). split; [exact Hc |].
  destruct Hc as (_ & Hne & _). unfold generated_ok.
  rewrite Hl1, Hl2, Hne. split; [lia |]. split; [lia | exact Hall].
Qed.

Lemma init_post (nv ne mst mmt : Z) (nl : list nonlin)
    (snl : option (list string)) (seed : Z)
    (addend_ok : term -> string -> Prop) (count_ok : nat -> Prop)
    (E : exn -> Prop) :
  let self0 := init_state nv ne mst mmt nl snl seed in
  (forall k, rpost (draw_addend self0 k)
                   (fun ts => addend_ok (fst ts) (snd ts)) E) ->
  (forall i, (i < Z.to_nat ne)%nat ->
     rpost (py_getitem
              (random_randint (random_key seed) (Z.to_nat ne) 1 (mst + 1))
              (Z.of_nat i))
           (fun cnt => count_ok (Z.to_nat cnt)) E) ->
  (ne < 0 -> E LibraryError) ->
  rpost (init nv ne mst mmt nl snl seed)
    (fun self => same_config self0 self /\
                 generated_ok addend_ok count_ok self)
    E.
Proof.
  intros self0 Hdraw Hcount Hneg.
  pose proof (@init_body_post self0 addend_ok count_ok E
                eq_refl eq_refl Hdraw Hcount Hneg) as H.
  unfold post in H. unfold init. fold self0.
  destruct (init_body self0) as [[u | e] self]; exact H.
Qed.

End Constructor.

Unset Implicit Arguments.

(** ** The symbolic expression of an addend *)

Section Rendering.

Context {J : JaxRandom} {P : PySet} {N : Numeric}.

Lemma firstn_succ_nth {A} (l : list A) (n : nat) (a : A) :
  nth_error l n = Some a -> firstn (S n) l = firstn n l ++ [a].
Proof.
  revert n. induction l as [| x l IH]; intros [| n] H; cbn in *;
    try discriminate.
  - now injection H as ->.
  - f_equal. now apply IH.
Qed.

Lemma NoDup_nth_not_before {A} (l : list A) (n : nat) (a : A) :
  NoDup l -> nth_error l n = Some a -> ~ In a (firstn n l).
Proof.
  intros Hnd. revert n.
  induction Hnd as [| x l Hx Hnd IH]; intros [| n] H; cbn in *;
    try discriminate; auto.
  intros [-> | Hin].
  - apply Hx. eapply nth_error_In; eauto.
  - now apply (IH n).
Qed.

Lemma used_vars_replace_nth (tm : term) (p q : nat) (fs : list nonlin) :
  (p < length tm)%nat ->
  In q (used_vars (replace_nth tm p (Funcs fs))) <->
  q = p \/ In q (used_vars tm).
Proof.
  intros Hp. rewrite !used_vars_In.
  split.
  - intros [gs Hq]. rewrite nth_error_replace_nth in Hq by exact Hp.
    destruct (Nat.eqb_spec q p); [now left | right; eauto].
  - intros [-> | [gs Hq]].
    + exists fs. rewrite nth_error_replace_nth by exact Hp.
      now rewrite Nat.eqb_refl.
    + destruct (Nat.eqb_spec q p) as [-> | Hne].
      * exists fs. rewrite nth_error_replace_nth by exact Hp.
        now rewrite Nat.eqb_refl.
      * exists gs. rewrite nth_error_replace_nth by exact Hp.
        destruct (Nat.eqb_spec q p); [contradiction | exact Hq].
Qed.

(** Lines 71-73: the nonlinearities and the names are taken at the same
    indices, in the same order. *)
Lemma add_nonlin_loop_renders (nl : list nonlin) (names : list string)
    (j : Z) (idxs : list Z) (temp0 : list nonlin) (sym0 : string) :
  rpost (for_each_r idxs (add_nonlin nl names j) (temp0, sym0))
        (fun ts => exists fs,
             fst ts = temp0 ++ fs /\
             Forall2 (fun k f => py_getitem nl k = Ok f /\
                                 is_ok (py_getitem names k) = true) idxs fs /\
             snd ts = factors_expr names j idxs sym0)
        (fun _ => True).
Proof.
  revert temp0 sym0.
  induction idxs as [| k idxs IH]; intros temp0 sym0; cbn.
  - exists []. rewrite app_nil_r. auto.
  - destruct (py_getitem nl k) as [f | x] eqn:Hf; cbn; [| exact I].
    destruct (py_getitem names k) as [name | x] eqn:Hname; cbn; [| exact I].
    eapply rpost_weaken; [apply IH | | auto].
    intros [temp sym] (fs & Htemp & Hfs & Hsym). cbn in *.
    exists (f :: fs). split; [| split].
    + now rewrite Htemp, <- app_assoc.
    + constructor; [| exact Hfs]. rewrite Hname. auto.
    + rewrite Hsym. unfold name_of. now rewrite Hname.
Qed.

Lemma fill_slot_renders (nl : list nonlin) (names : list string)
    (nli vi : list Z) (j : Z) (addend : term) (sym : string) :
  rpost (fill_slot nl names nli vi j (addend, sym))
        (fun ts => exists p fs,
             py_index (length addend) j = Ok p /\
             fst ts = replace_nth addend p (Funcs fs) /\
             Forall2 (fun k f => py_getitem nl k = Ok f /\
                                 is_ok (py_getitem names k) = true)
                     (where_eq nli vi j) fs /\
             snd ts = factors_expr names j (where_eq nli vi j) sym)
        (fun _ => True).
Proof.
  unfold fill_slot. apply rpost_rbind.
  eapply rpost_weaken; [apply add_nonlin_loop_renders | | auto].
  intros [temp sym'] (fs & Htemp & Hfs & Hsym). cbn in Htemp, Hsym.
  subst temp. unfold py_setitem.
  destruct (py_index (length addend) j) as [p | x] eqn:Hp; cbn; [| exact I].
  exists p, fs. auto.
Qed.

Context {JL : JaxRandomLaws J} {PL : PySetLaws P}.

(** Lines 57-75: the symbolic expression built along an addend is the
    expression of that addend. *)
Lemma draw_addend_renders (self : Equations) (subkey : Key) :
  rpost (draw_addend self subkey)
        (fun ts => renders (non_lins self) (sym_non_lins self)
                           (fst ts) (snd ts))
        (fun _ => True).
Proof.
  unfold draw_addend. apply rpost_rbind.
  eapply rpost_weaken; [apply py_getitem_post | | auto].
  intros m0 _. apply rpost_rbind.
  eapply rpost_weaken; [apply as_shape_post | | auto].
  intros m [_ ->]. apply rpost_rbind.
  eapply rpost_weaken; [apply np_ones_post | | auto].
  intros addend0 [Hnv ->].
  set (nl := non_lins self). set (names := sym_non_lins self).
  set (nli := random_randint subkey (Z.to_nat m0) 0 (Z.of_nat (length nl))).
  set (vi := random_randint subkey (Z.to_nat m0) 0 (n_vars self)).
  set (js := list_set vi).
  pose (I := fun (n : nat) (ts : term * string) =>
    length (fst ts) = Z.to_nat (n_vars self) /\
    exists groups : list (Z * list Z),
      map fst groups = firstn n js /\
      (forall p, In p (used_vars (fst ts)) <->
                 In (Z.of_nat p) (map fst groups)) /\
      (forall j ks, In (j, ks) groups ->
         0 <= j /\
         exists fs,
           nth_error (fst ts) (Z.to_nat j) = Some (Funcs fs) /\
           Forall2 (fun k f => py_getitem nl k = Ok f /\
                               is_ok (py_getitem names k) = true) ks fs) /\
      snd ts = groups_expr names groups).
  eapply rpost_weaken;
    [apply for_each_r_post_n with (I := I) (E := fun _ => True) | | auto].
  - intros n j [addend sym] Hj (Hlen & groups & Hfst & Hused & Hgr & Hsym).
    cbn [fst snd] in Hlen, Hused, Hgr, Hsym.
    eapply rpost_weaken; [apply fill_slot_renders | | auto].
    intros [addend' sym'] (p & fs & Hp & Ha & Hfs & Hs).
    cbn [fst snd] in Ha, Hs. subst addend' sym'.
    pose proof (py_index_ok _ _ Hp) as Hplt.
    assert (Hjr : 0 <= j < n_vars self).
    { apply (randint_In subkey (Z.to_nat m0) j); [lia |].
      apply (proj1 (list_set_In _ _)). eapply nth_error_In; exact Hj. }
    rewrite py_index_in_range in Hp by lia. injection Hp as <-.
    unfold I. cbn [fst snd]. split; [now rewrite replace_nth_length |].
    exists (groups ++ [(j, where_eq nli vi j)]).
    rewrite map_app, Hfst. cbn [map fst].
    split; [symmetry; now apply firstn_succ_nth |]. split; [| split].
    + intros q. rewrite used_vars_replace_nth by exact Hplt.
      rewrite in_app_iff, <- Hfst, <- Hused. cbn [In].
      split.
      * intros [-> | Hq]; [right; left; lia | now left].
      * intros [Hq | [Hq | []]]; [now right | left; lia].
    + intros j' ks Hin. apply in_app_iff in Hin as [Hin | [[= <- <-] | []]].
      * destruct (Hgr j' ks Hin) as (Hj' & gs & Hnth & Hgs).
        split; [exact Hj' |]. exists gs. split; [| exact Hgs].
        rewrite nth_error_replace_nth by exact Hplt.
        destruct (Nat.eqb_spec (Z.to_nat j') (Z.to_nat j)) as [Heq | _];
          [| exact Hnth].
        exfalso. assert (j' = j) by lia. subst j'.
        apply (NoDup_nth_not_before js n j (list_set_NoDup vi) Hj).
        rewrite <- Hfst. apply in_map_iff. now exists (j, ks).
      * split; [lia |]. exists fs. split; [| exact Hfs].
        rewrite nth_error_replace_nth by exact Hplt.
        now rewrite Nat.eqb_refl.
    + unfold groups_expr. rewrite fold_left_app. cbn.
      now rewrite Hsym.
  - unfold I. cbn [fst snd]. split; [apply repeat_length |].
    exists []. cbn. split; [reflexivity |]. split; [| split; [| reflexivity]].
    + intros p. split; [| tauto]. intros Hp.
      apply used_vars_In in Hp as [fs Hp].
      apply nth_error_ones in Hp. discriminate.
    + intros j ks [].
  - intros [tm sym] (_ & groups & Hfst & Hused & Hgr & Hsym).
    cbn [fst snd] in *. exists groups.
    rewrite firstn_all in Hfst. split; [| auto].
    rewrite Hfst. apply list_set_NoDup.
Qed.

End Rendering.

(** ** What a constructed object satisfies *)

Section Constructed.

Context {J : JaxRandom} {P : PySet} {N : Numeric}.

Lemma generated_ok_terms (addend_ok : term -> string -> Prop)
    (count_ok : nat -> Prop) (self : Equations) (e : equation) :
  generated_ok addend_ok count_ok self -> In e (equations self) ->
  count_ok (length e) /\
  forall tm, In tm e -> exists sym, addend_ok tm sym.
Proof.
  intros (Hl1 & Hl2 & Hall) He.
  apply In_nth_error in He as [i Hi].
  assert (Hlt : (i < length (sym_expr self))%nat).
  { assert (Hs : nth_error (equations self) i <> None) by congruence.
    apply nth_error_Some in Hs. lia. }
  apply nth_error_Some in Hlt.
  destruct (nth_error (sym_expr self) i) as [s |] eqn:Hs; [| contradiction].
  destruct (Hall i e s Hi Hs) as (Hc & syms & Hsyms & _).
  split; [exact Hc |]. intros tm Htm.
  clear - Hsyms Htm. induction Hsyms as [| x sx e syms Hx _ IH].
  - destruct Htm.
  - destruct Htm as [<- | Htm]; eauto.
Qed.

(** The shape of a constructed object, whatever the environment does. *)
Lemma init_shape (nv ne mst mmt : Z) (nl : list nonlin)
    (snl : option (list string)) (seed : Z) :
  rpost (init nv ne mst mmt nl snl seed)
    (fun self =>
       same_config (init_state nv ne mst mmt nl snl seed) self /\
       generated_ok
         (fun tm _ => Z.of_nat (length tm) = nv /\ uses_palette nl tm)
         (fun _ => True) self)
    (fun e => e = IndexError \/ e = LibraryError).
Proof.
  apply init_post.
  - intros k. apply (draw_addend_shape (init_state nv ne mst mmt nl snl seed)).
  - intros i _. eapply rpost_weaken; [apply py_getitem_post | auto |].
    intros e He. left. apply He.
  - auto.
Qed.

Lemma init_fields (nv ne mst mmt : Z) (nl : list nonlin)
    (snl : option (list string)) (seed : Z) (self : Equations) :
  init nv ne mst mmt nl snl seed = Ok self ->
  n_vars self = nv /\ n_eqs self = ne /\ max_sum_terms self = mst /\
  max_mult_terms self = mmt /\ non_lins self = nl /\
  sym_non_lins self =
    match snl with Some names => names | None => default_names nl end.
Proof.
  intros H. pose proof (init_shape nv ne mst mmt nl snl seed) as Hs.
  rewrite H in Hs. destruct Hs as [Hc _]. exact Hc.
Qed.

Lemma init_terms (nv ne mst mmt : Z) (nl : list nonlin)
    (snl : option (list string)) (seed : Z) (self : Equations) :
  init nv ne mst mmt nl snl seed = Ok self ->
  Z.of_nat (length (equations self)) = n_eqs self /\
  forall e tm, In e (equations self) -> In tm e ->
    Z.of_nat (length tm) = nv /\ uses_palette nl tm.
Proof.
  intros H. pose proof (init_shape nv ne mst mmt nl snl seed) as Hs.
  rewrite H in Hs. destruct Hs as [_ Hg]. split; [apply Hg |].
  intros e tm He Htm.
  destruct (generated_ok_terms _ _ self e Hg He) as [_ Hall].
  destruct (Hall tm Htm) as [_ Hok]. exact Hok.
Qed.

Context {JL : JaxRandomLaws J} {PL : PySetLaws P}.

Lemma init_bounds (nv ne mst mmt : Z) (nl : list nonlin)
    (snl : option (list string)) (seed : Z) :
  rpost (init nv ne mst mmt nl snl seed)
    (generated_ok
       (fun tm _ => nonempty_slots tm /\
                    (1 <= mmt -> Z.of_nat (n_used tm) <= mmt))
       (fun n => 1 <= mst -> 1 <= Z.of_nat n <= mst))
    (fun _ => True).
Proof.
  assert (H : rpost (init nv ne mst mmt nl snl seed)
                (fun self =>
                   same_config (init_state nv ne mst mmt nl snl seed) self /\
                   generated_ok
                     (fun tm _ => nonempty_slots tm /\
                                  (1 <= mmt -> Z.of_nat (n_used tm) <= mmt))
                     (fun n => 1 <= mst -> 1 <= Z.of_nat n <= mst) self)
                (fun _ => True)).
  { apply init_post.
    - intros k.
      apply (draw_addend_bounds (init_state nv ne mst mmt nl snl seed)).
    - intros i _. apply draw_count_bounds.
    - auto. }
  destruct (init nv ne mst mmt nl snl seed); [apply H | exact I].
Qed.

Lemma init_renders (nv ne mst mmt : Z) (nl : list nonlin)
    (snl : option (list string)) (seed : Z) :
  rpost (init nv ne mst mmt nl snl seed)
    (fun self =>
       generated_ok (renders nl (sym_non_lins self)) (fun _ => True) self)
    (fun _ => True).
Proof.
  set (self0 := init_state nv ne mst mmt nl snl seed).
  assert (H : rpost (init nv ne mst mmt nl snl seed)
                (fun self =>
                   same_config self0 self /\
                   generated_ok (renders nl (sym_non_lins self0))
                     (fun _ => True) self)
                (fun _ => True)).
  { apply init_post.
    - intros k. apply (draw_addend_renders self0).
    - intros i _. eapply rpost_weaken; [apply py_getitem_post | auto | auto].
    - auto. }
  destruct (init nv ne mst mmt nl snl seed) as [self | x]; [| exact I].
  destruct H as [Hc Hg]. cbn.
  destruct Hc as (_ & _ & _ & _ & _ & Hnames). now rewrite Hnames.
Qed.

Lemma init_total (nv ne mst mmt : Z) (nl : list nonlin)
    (snl : option (list string)) (seed : Z) :
  0 <= ne -> 1 <= nv -> 1 <= mmt ->
  (1 <= length nl)%nat ->
  match snl with
  | Some names => (length nl <= length names)%nat
  | None => True
  end ->
  exists self, init nv ne mst mmt nl snl seed = Ok self.
Proof.
  intros Hne Hnv Hmmt Hnl Hnames.
  assert (H : rpost (init nv ne mst mmt nl snl seed)
                (fun self =>
                   same_config (init_state nv ne mst mmt nl snl seed) self /\
                   generated_ok (fun _ _ => True) (fun _ => True) self)
                (fun _ => False)).
  { apply init_post.
    - intros k. apply draw_addend_total; cbn; auto.
      split; [exact Hnl |]. destruct snl as [names |]; [exact Hnames |].
      unfold default_names, py_range.
      rewrite length_map, length_seq, Nat2Z.id. lia.
    - intros i Hi. now apply draw_count_total.
    - lia. }
  destruct (init nv ne mst mmt nl snl seed) as [self | e]; [| destruct H].
  now exists self.
Qed.

End Constructed.

(** ** The concrete environment satisfies the laws *)

#[export] Instance toy_random_laws : JaxRandomLaws Toy.toy_random.
Proof.
  split; cbn; unfold Toy.toy_randint; intros k n lo hi.
  - now rewrite length_map, length_seq.
  - intros Hlt. apply Forall_forall. intros z Hz.
    apply in_map_iff in Hz as [i [<- _]].
    apply Z.ltb_lt in Hlt as Hb. rewrite Hb.
    pose proof (Z.mod_pos_bound (k + Z.of_nat i * (k + 1)) (hi - lo)). lia.
Qed.

#[export] Instance toy_set_laws : PySetLaws Toy.toy_set.
Proof.
  split; cbn; intros l.
  - apply NoDup_nodup.
  - intros z. apply nodup_In.
Qed.

#[export] Instance int_numeric_laws : NumericLaws Toy.int_numeric.
Proof.
  split; cbn; intros x; [reflexivity | now destruct x].
Qed.

(** ** The evaluator on a constructed object *)

Section Evaluation.

Context {J : JaxRandom} {P : PySet} {N : Numeric}.

Lemma term_value_identity (y : list num) (tm : term) :
  all_identity tm -> term_value y tm = Ok num1.
Proof.
  intros Hid. unfold term_value.
  assert (G : forall ps a,
             (forall ks, In ks ps -> snd ks = One) ->
             for_each_r ps
               (fun ks addend =>
                  match snd ks with
                  | One => Ok addend
                  | Funcs fs => slot_value y (fst ks) fs addend
                  end) a = Ok a).
  { induction ps as [| ks ps IH]; intros a Hps; cbn; [reflexivity |].
    rewrite (Hps ks (or_introl eq_refl)). cbn.
    apply IH. intros; apply Hps; now right. }
  apply G. intros [k s] Hin. cbn.
  apply enumerate_nth, nth_error_In in Hin.
  unfold all_identity in Hid. rewrite Forall_forall in Hid. now apply Hid.
Qed.

Lemma init_reads_within (nv ne mst mmt : Z) (nl : list nonlin)
    (snl : option (list string)) (seed : Z) (self : Equations)
    (y : list num) :
  init nv ne mst mmt nl snl seed = Ok self ->
  nv <= Z.of_nat (length y) ->
  Forall (Forall (reads_within y)) (equations self).
Proof.
  intros Hinit Hy. destruct (init_terms _ _ _ _ _ _ _ _ Hinit) as [_ Hterms].
  apply Forall_forall. intros e He. apply Forall_forall. intros tm Htm.
  destruct (Hterms e tm He Htm) as [Hlen _].
  intros k Hk. apply used_vars_In in Hk as [fs Hk].
  assert (Hsome : nth_error tm k <> None) by congruence.
  apply nth_error_Some in Hsome. lia.
Qed.

Lemma init_defined_on (nv ne mst mmt : Z) (nl : list nonlin)
    (snl : option (list string)) (seed : Z) (self : Equations)
    (y : list num) :
  init nv ne mst mmt nl snl seed = Ok self ->
  Forall (Forall (reads_within y)) (equations self) ->
  in_domains nl y ->
  Forall (Forall (defined_on y)) (equations self).
Proof.
  intros Hinit Hr Hd. destruct (init_terms _ _ _ _ _ _ _ _ Hinit) as [_ Hterms].
  apply Forall_forall. intros e He. apply Forall_forall. intros tm Htm.
  destruct (Hterms e tm He Htm) as [_ Hpal].
  rewrite Forall_forall in Hr. specialize (Hr e He).
  rewrite Forall_forall in Hr. specialize (Hr tm Htm).
  intros k fs f Hk Hf. apply Hd; [eapply Hpal; eauto |].
  apply nth_In, Hr, used_vars_In. eauto.
Qed.

Lemma init_uses_palette (nv ne mst mmt : Z) (nl : list nonlin)
    (snl : option (list string)) (seed : Z) (self : Equations) :
  init nv ne mst mmt nl snl seed = Ok self ->
  Forall (Forall (uses_palette nl)) (equations self).
Proof.
  intros Hinit. destruct (init_terms _ _ _ _ _ _ _ _ Hinit) as [_ Hterms].
  apply Forall_forall. intros e He. apply Forall_forall. intros tm Htm.
  apply (Hterms e tm He Htm).
Qed.

(** C1. On a constructed object and a vector [y] with at least [n_vars]
    entries, all in the domains of the nonlinearities, a call returns
    [n_eqs] numbers, the one at index [i] being the sum over the terms
    of equation [i] of the product, over the non-identity slots, of the
    slot's nonlinearities applied to the entry of [y] at the slot's
    index, multiplied in stored order. *)
Theorem call_sum_of_products (nv ne mst mmt : Z) (nl : list nonlin)
    (snl : option (list string)) (seed : Z) (self : Equations)
    (T : Type) (t : T) (y : list num) :
  init nv ne mst mmt nl snl seed = Ok self ->
  nv <= Z.of_nat (length y) ->
  in_domains nl y ->
  run (call t y) self = Ok (map (spec_sum y) (equations self)) /\
  Z.of_nat (length (map (spec_sum y) (equations self))) = ne.
Proof.
  intros Hinit Hy Hd.
  destruct (init_fields _ _ _ _ _ _ _ _ Hinit) as (_ & Hne & _).
  destruct (init_terms _ _ _ _ _ _ _ _ Hinit) as [Hlen _].
  pose proof (init_reads_within _ _ _ _ _ _ _ _ y Hinit Hy) as Hr.
  pose proof (init_defined_on _ _ _ _ _ _ _ _ y Hinit Hr Hd) as Hdef.
  split.
  - rewrite run_call by exact Hlen. now apply values_ok.
  - rewrite length_map. congruence.
Qed.

(** C7. A term all of whose slots are the identity marker contributes
    exactly [1] to its equation, and on an object whose only equation
    consists of one such term a call returns [[1]], whatever [y]. *)
Theorem identity_term_is_one (self : Equations) (T : Type) (t : T)
    (y : list num) (tm : term) :
  all_identity tm ->
  (forall i j eq,
      lookup_term self i j = Ok tm ->
      run (add_term y i j eq) self = Ok (num_add eq num1)) /\
  (num_add num0 num1 = num1 ->
   n_eqs self = 1 -> equations self = [[tm]] ->
   run (call t y) self = Ok [num1]).
Proof.
  intros Hid. pose proof (term_value_identity y tm Hid) as Htv. split.
  - intros i j eq Hlook. rewrite run_add_term, Hlook. cbn.
    now rewrite Htv.
  - intros H01 Hn He. rewrite run_call by (rewrite He, Hn; reflexivity).
    rewrite He. unfold values, equation_value. cbn.
    rewrite Htv. cbn. now rewrite H01.
Qed.

(** C9. A call assigns to no attribute of the object (the equations,
    the symbolic strings and the configuration are left as they were),
    its result does not depend on [t], and it does not depend on the
    calls made before. *)
Theorem call_is_pure (self : Equations) (T : Type) (t : T) (y : list num) :
  final (call t y) self = self /\
  (forall (T' : Type) (t' : T'), run (call t' y) self = run (call t y) self) /\
  (forall (T' : Type) (t' : T') (y' : list num),
      run (call t y) (final (call t' y') self) = run (call t y) self).
Proof.
  split; [apply readonly_call |]. split.
  - intros T' t'. reflexivity.
  - intros T' t' y'. now rewrite readonly_call.
Qed.

Context {JL : JaxRandomLaws J} {PL : PySetLaws P}.

Lemma init_nonempty_slots (nv ne mst mmt : Z) (nl : list nonlin)
    (snl : option (list string)) (seed : Z) (self : Equations) :
  init nv ne mst mmt nl snl seed = Ok self ->
  forall e tm, In e (equations self) -> In tm e -> nonempty_slots tm.
Proof.
  intros Hinit e tm He Htm.
  pose proof (init_bounds nv ne mst mmt nl snl seed) as Hb.
  rewrite Hinit in Hb. cbn in Hb.
  destruct (generated_ok_terms _ _ self e Hb He) as [_ Hall].
  destruct (Hall tm Htm) as [_ [Hne _]]. exact Hne.
Qed.

(** C4, as the code has it.  A call on a constructed object raises, and
    returns nothing, as soon as some non-identity slot has its index
    past the end of [y]; the exception is the [IndexError] of [y[k]]
    when the nonlinearities are defined on the entries of [y]. *)
Theorem call_out_of_range (nv ne mst mmt : Z) (nl : list nonlin)
    (snl : option (list string)) (seed : Z) (self : Equations)
    (T : Type) (t : T) (y : list num) (e : equation) (tm : term) (k : nat) :
  init nv ne mst mmt nl snl seed = Ok self ->
  In e (equations self) -> In tm e -> In k (used_vars tm) ->
  (length y <= k)%nat ->
  (exists x, run (call t y) self = Raise x) /\
  (in_domains nl y -> run (call t y) self = Raise IndexError).
Proof.
  intros Hinit He Htm Hk Hlen.
  destruct (init_terms _ _ _ _ _ _ _ _ Hinit) as [Hl _].
  pose proof (init_nonempty_slots _ _ _ _ _ _ _ _ Hinit e tm He Htm) as Hne.
  rewrite run_call by exact Hl.
  pose proof (@values_out_of_range _ y (equations self) e tm k
                He Htm Hne Hk Hlen) as Hfail.
  destruct (values y (equations self)) as [f | x] eqn:Hv; [discriminate |].
  split; [now exists x |].
  intros Hd.
  pose proof (@values_defined _ nl y (equations self)
                (init_uses_palette _ _ _ _ _ _ _ _ Hinit) Hd) as Hx.
  rewrite Hv in Hx. cbn in Hx. now subst x.
Qed.

End Evaluation.

Section Reads.

Context {J : JaxRandom} {P : PySet} {N : Numeric}.

(** C10, as the code has it.  When every non-identity slot of a
    constructed object has its index within [y], a call raises no
    out-of-bounds error, also when [y] is shorter than [n_vars]: it
    raises only what a nonlinearity raises, and returns its [n_eqs]
    numbers when the nonlinearities are defined on the entries of [y]. *)
Theorem call_reads_used_slots (nv ne mst mmt : Z) (nl : list nonlin)
    (snl : option (list string)) (seed : Z) (self : Equations)
    (T : Type) (t : T) (y : list num) :
  init nv ne mst mmt nl snl seed = Ok self ->
  (forall e tm k, In e (equations self) -> In tm e -> In k (used_vars tm) ->
                  (k < length y)%nat) ->
  (forall x, run (call t y) self = Raise x -> exists msg, x = Raised msg) /\
  (in_domains nl y ->
   exists f, run (call t y) self = Ok f /\ Z.of_nat (length f) = ne).
Proof.
  intros Hinit Hused.
  destruct (init_fields _ _ _ _ _ _ _ _ Hinit) as (_ & Hne & _).
  destruct (init_terms _ _ _ _ _ _ _ _ Hinit) as [Hl _].
  assert (Hr : Forall (Forall (reads_within y)) (equations self)).
  { apply Forall_forall. intros e He. apply Forall_forall. intros tm Htm k Hk.
    eapply Hused; eauto. }
  rewrite run_call by exact Hl. split.
  - intros x Hx. pose proof (values_within Hr) as Hw.
    rewrite Hx in Hw. exact Hw.
  - intros Hd.
    pose proof (init_defined_on _ _ _ _ _ _ _ _ y Hinit Hr Hd) as Hdef.
    rewrite (values_ok Hr Hdef). eexists. split; [reflexivity |].
    rewrite length_map. congruence.
Qed.

End Reads.

(** ** The scenario of one equation, one addend, one nonlinearity *)

Section Scenario.

Context {J : JaxRandom} {P : PySet} {N : Numeric}.
Context {PL : PySetLaws P} {NL : NumericLaws N}.

Lemma list_set_singleton (z : Z) : list_set [z] = [z].
Proof.
  pose proof (list_set_NoDup [z]) as Hnd.
  pose proof (list_set_In [z]) as Hin.
  destruct (list_set [z]) as [| a l].
  - destruct (proj2 (Hin z)). now left.
  - assert (Ha : a = z).
    { destruct (proj1 (Hin a)) as [<- | []]; [now left | reflexivity]. }
    subst a. destruct l as [| b l]; [reflexivity |].
    assert (Hb : b = z).
    { destruct (proj1 (Hin b)) as [<- | []]; [right; now left | reflexivity]. }
    subst b. inversion Hnd as [| ? ? Hnotin _]. destruct Hnotin. now left.
Qed.

Local Opaque drop_last3 String.append.

Ltac run_step :=
  repeat (progress (unfold bind, get, modify, lift, ret; cbn;
                    change (Pos.to_nat 1) with 1%nat)).

Lemma scenario_init (f : nonlin) (snl : option (list string)) (seed : Z)
    (name : string) (rest : list string) :
  random_randint (random_key seed) 1 1 2 = [1] ->
  random_randint (snd (random_split (random_key seed))) 1 1 2 = [1] ->
  random_randint (snd (random_split (random_key seed))) 1 0 1 = [0] ->
  random_randint (snd (random_split (random_key seed))) 1 0 2 = [0] ->
  match snl with Some names => names | None => default_names [f] end =
  name :: rest ->
  exists self,
    init 2 1 1 1 [f] snl seed = Ok self /\
    n_eqs self = 1 /\
    equations self = [[[Funcs [f]; One]]] /\
    sym_expr self =
      [drop_last3 ("f_{1} = " ++ (("" ++ (name ++ "(y_{1})")) ++ " + "))%string].
Proof.
  intros Hcount Hm Hnl Hvar Hname.
  destruct (random_split (random_key seed)) as [key' subkey] eqn:Hsplit.
  cbn [snd] in Hm, Hnl, Hvar.
  unfold init, init_body, init_state. rewrite Hname. run_step.
  rewrite Hcount.
  unfold gen_equation. run_step.
  unfold add_addend, gen_addend. run_step.
  rewrite Hsplit. unfold draw_addend. run_step.
  rewrite Hm. run_step.
  rewrite Hnl, Hvar, list_set_singleton. run_step.
  eexists. split; [reflexivity |]. cbn. auto.
Qed.

Local Transparent drop_last3 String.append.

End Scenario.

Section ScenarioClaim.

Context {J : JaxRandom} {P : PySet} {N : Numeric}.
Context {PL : PySetLaws P} {NL : NumericLaws N}.

Lemma scenario_call (self : Equations) (f : nonlin) (T : Type) (t : T)
    (y0 y1 : num) :
  n_eqs self = 1 -> equations self = [[[Funcs [f]; One]]] ->
  run (call t [y0; y1]) self = (v <-? call_nonlin f y0 ;; Ok [v]).
Proof.
  intros Hn He. rewrite run_call by (rewrite He, Hn; reflexivity).
  rewrite He. unfold values, equation_value, term_value, slot_value. cbn.
  destruct (call_nonlin f y0) as [v | x]; cbn; [| reflexivity].
  now rewrite num_mul_1_l, num_add_0_l.
Qed.

(** C2, as the code has it.  With [n_vars = 2], [n_eqs = 1],
    [max_sum_terms = 1], [max_mult_terms = 1], the palette [[sin]] and a
    seed whose draws give one addend, one multiplicand, nonlinearity 0
    and variable 0, the constructed object evaluates [(t, [y0, y1])] to
    [[sin(y0)]], and its symbolic string is
    [f_{1} = \text{nl}_1(y_{1})], or [f_{1} = sin(y_{1})] when the name
    [sin] was supplied: the indices are written in braces. *)
Theorem scenario_one_nonlinearity (sin : nonlin) (seed : Z) (T : Type) (t : T)
    (y0 y1 : num) :
  random_randint (random_key seed) 1 1 2 = [1] ->
  random_randint (snd (random_split (random_key seed))) 1 1 2 = [1] ->
  random_randint (snd (random_split (random_key seed))) 1 0 1 = [0] ->
  random_randint (snd (random_split (random_key seed))) 1 0 2 = [0] ->
  (exists self,
      init 2 1 1 1 [sin] None seed = Ok self /\
      run (call t [y0; y1]) self = (v <-? call_nonlin sin y0 ;; Ok [v]) /\
      sym_expr self = ["f_{1} = \text{nl}_1(y_{1})"]) /\
  (exists self,
      init 2 1 1 1 [sin] (Some ["sin"]) seed = Ok self /\
      run (call t [y0; y1]) self = (v <-? call_nonlin sin y0 ;; Ok [v]) /\
      sym_expr self = ["f_{1} = sin(y_{1})"]).
Proof.
  intros Hcount Hm Hnl Hvar. split.
  - destruct (scenario_init sin None seed "\text{nl}_1" []
                Hcount Hm Hnl Hvar eq_refl) as (self & Hinit & Hn & He & Hs).
    exists self. split; [exact Hinit |]. split; [| exact Hs].
    now apply scenario_call.
  - destruct (scenario_init sin (Some ["sin"]) seed "sin" []
                Hcount Hm Hnl Hvar eq_refl) as (self & Hinit & Hn & He & Hs).
    exists self. split; [exact Hinit |]. split; [| exact Hs].
    now apply scenario_call.
Qed.

End ScenarioClaim.

(** ** The constructor and its configuration *)

Section Configuration.

Context {J : JaxRandom} {P : PySet} {N : Numeric}.



Context {JL : JaxRandomLaws J} {PL : PySetLaws P}.

Lemma getitem_nat (self : Equations) (i : nat) :
  getitem self (Z.of_nat i) =
  match nth_error (equations self) i, nth_error (sym_expr self) i with
  | Some e, Some s => Ok (e, s)
  | _, _ => Raise IndexError
  end.
Proof.
  unfold getitem. rewrite !py_getitem_nat.
  destruct (nth_error (equations self) i); cbn; [| reflexivity].
  destruct (nth_error (sym_expr self) i); reflexivity.
Qed.

(** C5. A constructed object holds [n_eqs] equations and [n_eqs]
    strings; at every index [i] below [n_eqs] the object gives an
    equation and a string that belong together: the string is the label
    [f_{i+1}] followed by the symbolic expressions of the addends of
    that very equation, addend by addend; and every term of every
    equation has [n_vars] slots. *)
Theorem parallel_lists (nv ne mst mmt : Z) (nl : list nonlin)
    (snl : option (list string)) (seed : Z) (self : Equations) :
  init nv ne mst mmt nl snl seed = Ok self ->
  Z.of_nat (length (equations self)) = ne /\
  Z.of_nat (length (sym_expr self)) = ne /\
  (forall i, Z.of_nat i < ne ->
     exists e s syms,
       getitem self (Z.of_nat i) = Ok (e, s) /\
       Forall2 (renders nl (sym_non_lins self)) e syms /\
       s = rendered_equation i syms) /\
  (forall e tm, In e (equations self) -> In tm e ->
                Z.of_nat (length tm) = nv).
Proof.
  intros Hinit.
  destruct (init_fields _ _ _ _ _ _ _ _ Hinit) as (_ & Hne & _).
  pose proof (init_renders nv ne mst mmt nl snl seed) as Hr.
  rewrite Hinit in Hr. destruct Hr as (Hl1 & Hl2 & Hall).
  split; [congruence |]. split; [congruence |]. split.
  - intros i Hi. rewrite getitem_nat.
    destruct (nth_error (equations self) i) as [e |] eqn:He.
    2:{ apply nth_error_None in He. lia. }
    destruct (nth_error (sym_expr self) i) as [s |] eqn:Hs.
    2:{ apply nth_error_None in Hs. lia. }
    destruct (Hall i e s He Hs) as (_ & syms & Hsyms & Hstr).
    exists e, s, syms. auto.
  - intros e tm He Htm.
    apply (proj2 (init_terms _ _ _ _ _ _ _ _ Hinit) e tm He Htm).
Qed.

(** C6. For a configuration as the data model has it
    ([max_sum_terms >= 1], [max_mult_terms >= 1]) and every seed, every
    equation of the constructed object has between 1 and [max_sum_terms]
    addends, and every addend at most [max_mult_terms] non-identity
    slots. *)
Theorem addend_bounds (nv ne mst mmt : Z) (nl : list nonlin)
    (snl : option (list string)) (seed : Z) (self : Equations) :
  1 <= mst -> 1 <= mmt ->
  init nv ne mst mmt nl snl seed = Ok self ->
  forall e, In e (equations self) ->
    1 <= Z.of_nat (length e) <= mst /\
    forall tm, In tm e -> Z.of_nat (n_used tm) <= mmt.
Proof.
  intros Hmst Hmmt Hinit e He.
  pose proof (init_bounds nv ne mst mmt nl snl seed) as Hb.
  rewrite Hinit in Hb. cbn in Hb.
  destruct (generated_ok_terms _ _ self e Hb He) as [Hcount Hall].
  split; [now apply Hcount |].
  intros tm Htm. destruct (Hall tm Htm) as [_ [_ Hn]]. now apply Hn.
Qed.

End Configuration.

(** ** The theorems on concrete runs *)

Section Runs.

Import Toy.

Lemma call_sum_of_products_witness :
  exists self,
    init 3 2 3 3 [square; succ] None 5 = Ok self /\
    3 <= Z.of_nat (length [1; 2; 3]) /\
    run (call tt [1; 2; 3]) self =
      Ok (map (spec_sum [1; 2; 3]) (equations self)) /\
    Z.of_nat (length (map (spec_sum [1; 2; 3]) (equations self))) = 2.
Proof.
  eexists. split; [vm_compute; reflexivity |]. split; [cbn; lia |].
  apply (call_sum_of_products 3 2 3 3 [square; succ] None 5 _ unit tt
           [1; 2; 3]).
  - vm_compute; reflexivity.
  - cbn; lia.
  - intros f v [<- | [<- | []]] _; reflexivity.
Defined.

Lemma scenario_one_nonlinearity_witness :
  random_randint (random_key 0) 1 1 2 = [1] /\
  random_randint (snd (random_split (random_key 0))) 1 1 2 = [1] /\
  random_randint (snd (random_split (random_key 0))) 1 0 1 = [0] /\
  random_randint (snd (random_split (random_key 0))) 1 0 2 = [0] /\
  exists self,
    init 2 1 1 1 [square] (Some ["sin"]) 0 = Ok self /\
    run (call tt [5; 7]) self = Ok [25] /\
    sym_expr self = ["f_{1} = sin(y_{1})"].
Proof.
  repeat (split; [reflexivity |]).
  apply (scenario_one_nonlinearity square 0 unit tt 5 7); reflexivity.
Defined.

(** C2, as stated, fails: in the scenario the string is not
    [f_1 = \text{nl}_1(y_1)]. *)
Lemma scenario_string_without_braces :
  random_randint (random_key 0) 1 1 2 = [1] /\
  random_randint (snd (random_split (random_key 0))) 1 1 2 = [1] /\
  random_randint (snd (random_split (random_key 0))) 1 0 1 = [0] /\
  random_randint (snd (random_split (random_key 0))) 1 0 2 = [0] /\
  exists self,
    init 2 1 1 1 [square] None 0 = Ok self /\
    sym_expr self <> ["f_1 = \text{nl}_1(y_1)"].
Proof.
  repeat (split; [reflexivity |]).
  eexists. split; [vm_compute; reflexivity |]. cbn. discriminate.
Qed.



Lemma call_out_of_range_witness :
  exists self,
    init 2 1 1 1 [square] None 1 = Ok self /\
    run (call tt [5]) self = Raise IndexError.
Proof.
  eexists. split; [vm_compute; reflexivity |].
  apply (call_out_of_range 2 1 1 1 [square] None 1 _ unit tt [5]
           [[One; Funcs [square]]] [One; Funcs [square]] 1).
  - vm_compute; reflexivity.
  - now left.
  - now left.
  - now left.
  - cbn; lia.
  - intros f v [<- | []] _; reflexivity.
Defined.

(** C4, as stated, fails: a vector shorter than [n_vars] is evaluated
    when the slots past its end are identity markers. *)
Lemma short_vector_evaluated :
  exists self,
    init 2 1 1 1 [square] None 0 = Ok self /\
    Z.of_nat (length [5]) < n_vars self /\
    run (call tt [5]) self = Ok [25].
Proof.
  eexists. split; [vm_compute; reflexivity |]. split; reflexivity.
Qed.

Lemma parallel_lists_witness :
  exists self,
    init 3 2 3 3 [square; succ] (Some ["sq"; "succ"]) 7 = Ok self /\
    Z.of_nat (length (equations self)) = 2 /\
    Z.of_nat (length (sym_expr self)) = 2 /\
    (forall i, Z.of_nat i < 2 ->
       exists e s syms,
         getitem self (Z.of_nat i) = Ok (e, s) /\
         Forall2 (renders [square; succ] (sym_non_lins self)) e syms /\
         s = rendered_equation i syms) /\
    (forall e tm, In e (equations self) -> In tm e ->
                  Z.of_nat (length tm) = 3).
Proof.
  eexists. split; [vm_compute; reflexivity |].
  apply (parallel_lists 3 2 3 3 [square; succ] (Some ["sq"; "succ"]) 7).
  vm_compute; reflexivity.
Defined.

Lemma addend_bounds_witness :
  exists self,
    init 3 2 3 3 [square; succ] None 5 = Ok self /\
    forall e, In e (equations self) ->
      1 <= Z.of_nat (length e) <= 3 /\
      forall tm, In tm e -> Z.of_nat (n_used tm) <= 3.
Proof.
  eexists. split; [vm_compute; reflexivity |].
  apply (addend_bounds 3 2 3 3 [square; succ] None 5); [lia | lia |].
  vm_compute; reflexivity.
Defined.

Lemma identity_term_is_one_witness :
  let self :=
    mkEquations 2 1 1 1 [square] ["sq"] [[[One; One]]] ["f_{1}"] 0 in
  run (call tt [5; 7]) self = Ok [1].
Proof.
  apply (identity_term_is_one (N := int_numeric) _ unit tt [5; 7] [One; One]);
    [repeat constructor | reflexivity | reflexivity | reflexivity].
Defined.


Lemma call_reads_used_slots_witness :
  exists self,
    init 2 1 1 1 [square] None 0 = Ok self /\
    Z.of_nat (length [5]) < n_vars self /\
    exists f, run (call tt [5]) self = Ok f /\ Z.of_nat (length f) = 1.
Proof.
  eexists. split; [vm_compute; reflexivity |]. split; [reflexivity |].
  apply (call_reads_used_slots 2 1 1 1 [square] None 0 _ unit tt [5]).
  - vm_compute; reflexivity.
  - intros e tm k [<- | []] [<- | []] [<- | []]. cbn; lia.
  - intros f v [<- | []] _; reflexivity.
Defined.

(** C10, as stated, fails: with every non-identity slot within [y], a
    call still raises what a nonlinearity raises. *)
Lemma nonlinearity_raises_within_range :
  exists self,
    init 2 1 1 1 [log2] None 0 = Ok self /\
    (forall e tm k, In e (equations self) -> In tm e ->
                    In k (used_vars tm) -> (k < length [0])%nat) /\
    run (call tt [0]) self = Raise (Raised "math domain error").
Proof.
  eexists. split; [vm_compute; reflexivity |]. split; [| reflexivity].
  intros e tm k [<- | []] [<- | []] [<- | []]. cbn; lia.
Qed.

End Runs.
